(** * Job-application tracker: status normalisation and upsert reconciliation

    A shallow embedding of [app.py] (normaliser, reconciler, manual add,
    stage breakdown) and of the row loop of [crawler.py], with the
    properties of the specification stated and proved over it.

    Python values are modelled as follows.
    - [str] is a sequence of Unicode code points, [list N].
    - The ASCII rows of the Unicode Character Database are written out;
      the rows of the code points from 128 upwards are a parameter
      ([ucd]), so that a theorem quantified over the tables holds for
      whatever version of the database the interpreter ships.
    - The SQLite table is the list of its rows in rowid order together
      with the [sqlite_sequence] counter of the AUTOINCREMENT key. *)

From Stdlib Require Import String Ascii.
From Stdlib Require Import List Bool Arith NArith ZArith Lia.
From Stdlib Require Import Permutation Sorted.
Import ListNotations.

Set Implicit Arguments.

(* ================================================================== *)
(** * Python strings *)
(* ================================================================== *)

Module PyStr.

Local Open Scope N_scope.

(** A code point, and a Python [str]. *)
Definition codepoint := N.
Definition pystr := list codepoint.

(** A string literal of the source, all of whose characters are ASCII. *)
Fixpoint lit (s : string) : pystr :=
  match s with
  | EmptyString => []
  | String a r => N_of_ascii a :: lit r
  end.

(** Equality of two strings, code point by code point. *)
Fixpoint eqb (s t : pystr) : bool :=
  match s, t with
  | [], [] => true
  | a :: s', b :: t' => (a =? b) && eqb s' t'
  | _, _ => false
  end.

Definition eq_dec : forall s t : pystr, {s = t} + {s <> t} :=
  list_eq_dec N.eq_dec.

(** Truth value of a string: non-empty. *)
Definition truthy (s : pystr) : bool :=
  match s with [] => false | _ :: _ => true end.

Definition is_empty (s : pystr) : bool :=
  match s with [] => true | _ :: _ => false end.

(** ** The character database *)

(** The rows of the database for the code points from 128 upwards. *)
Record ucd : Type := UCD {
  u_space : codepoint -> bool;           (* White_Space / bidirectional WS, B, S *)
  u_cased : codepoint -> bool;           (* Cased *)
  u_case_ignorable : codepoint -> bool;  (* Case_Ignorable *)
  u_lower : codepoint -> list codepoint; (* full lower-case mapping *)
  u_title : codepoint -> list codepoint  (* full title-case mapping *)
}.

Definition is_ascii (c : codepoint) : bool := c <? 128.

Definition ascii_upper_letter (c : codepoint) : bool := (65 <=? c) && (c <=? 90).
Definition ascii_lower_letter (c : codepoint) : bool := (97 <=? c) && (c <=? 122).

(** [\t \n \v \f \r], the four separators 0x1c-0x1f, and the blank. *)
Definition ascii_space (c : codepoint) : bool :=
  ((9 <=? c) && (c <=? 13)) || ((28 <=? c) && (c <=? 31)) || (c =? 32).

Definition ascii_cased (c : codepoint) : bool :=
  ascii_upper_letter c || ascii_lower_letter c.

(** ['], [.], [:], [^] and the grave accent. *)
Definition ascii_case_ignorable (c : codepoint) : bool :=
  (c =? 39) || (c =? 46) || (c =? 58) || (c =? 94) || (c =? 96).

Definition ascii_lower (c : codepoint) : codepoint :=
  if ascii_upper_letter c then c + 32 else c.

Definition ascii_upper (c : codepoint) : codepoint :=
  if ascii_lower_letter c then c - 32 else c.

Section Tables.

Variable U : ucd.

Definition is_space (c : codepoint) : bool :=
  if is_ascii c then ascii_space c else u_space U c.

Definition is_cased (c : codepoint) : bool :=
  if is_ascii c then ascii_cased c else u_cased U c.

Definition is_case_ignorable (c : codepoint) : bool :=
  if is_ascii c then ascii_case_ignorable c else u_case_ignorable U c.

Definition to_lower_full (c : codepoint) : list codepoint :=
  if is_ascii c then [ascii_lower c] else u_lower U c.

Definition to_title_full (c : codepoint) : list codepoint :=
  if is_ascii c then [ascii_upper c] else u_title U c.

(** ** [str.strip()] *)

Fixpoint lstrip (s : pystr) : pystr :=
  match s with
  | [] => []
  | c :: r => if is_space c then lstrip r else s
  end.

Fixpoint rstrip (s : pystr) : pystr :=
  match s with
  | [] => []
  | c :: r =>
      match rstrip r with
      | [] => if is_space c then [] else [c]
      | r' => c :: r'
      end
  end.

Definition strip (s : pystr) : pystr := rstrip (lstrip s).

(** No blank at the front. *)
Definition head_ok (s : pystr) : bool :=
  match s with [] => true | c :: _ => negb (is_space c) end.

(** A string is blank when it is empty or made of white space only. *)
Definition blank (s : pystr) : bool := forallb is_space s.

(** ** [str.lower()] *)

(** The first code point of [s] that is not case-ignorable, if any. *)
Fixpoint skip_ignorable (s : pystr) : option codepoint :=
  match s with
  | [] => None
  | c :: r => if is_case_ignorable c then skip_ignorable r else Some c
  end.

(** The capital sigma U+03A3 becomes the final sigma U+03C2 when a cased
    code point precedes it and none follows it, case-ignorable code points
    skipped on both sides; it becomes U+03C3 otherwise.  [before] is the
    text to the left, nearest code point first. *)
Definition handle_capital_sigma (before after : pystr) : codepoint :=
  let final_sigma :=
    match skip_ignorable before with
    | Some c =>
        is_cased c &&
        match skip_ignorable after with
        | Some c' => negb (is_cased c')
        | None => true
        end
    | None => false
    end in
  if final_sigma then 962 else 963.

Definition lower_ucs4 (before : pystr) (c : codepoint) (after : pystr)
  : list codepoint :=
  if c =? 931 then [handle_capital_sigma before after] else to_lower_full c.

Fixpoint do_lower (before s : pystr) : pystr :=
  match s with
  | [] => []
  | c :: r => lower_ucs4 before c r ++ do_lower (c :: before) r
  end.

Definition lower (s : pystr) : pystr := do_lower [] s.

(** ** [str.title()] *)

Fixpoint do_title (previous_is_cased : bool) (before s : pystr) : pystr :=
  match s with
  | [] => []
  | c :: r =>
      (if previous_is_cased then lower_ucs4 before c r else to_title_full c)
        ++ do_title (is_cased c) (c :: before) r
  end.

Definition title (s : pystr) : pystr := do_title false [] s.

End Tables.

(** ** Strings of ASCII characters *)

Definition all_ascii (s : pystr) : bool := forallb is_ascii s.

(** What [str.title()] computes on a string of ASCII characters, where
    the tables beyond ASCII are not consulted ([title_is_title_ascii]). *)
Fixpoint title_ascii (previous_is_cased : bool) (s : pystr) : pystr :=
  match s with
  | [] => []
  | c :: r =>
      (if previous_is_cased then ascii_lower c else ascii_upper c)
        :: title_ascii (ascii_cased c) r
  end.

(** ** [needle in haystack] *)

Fixpoint starts_with (needle hay : pystr) : bool :=
  match needle, hay with
  | [], _ => true
  | _ :: _, [] => false
  | a :: n', b :: h' => (a =? b) && starts_with n' h'
  end.

Fixpoint contains (needle hay : pystr) : bool :=
  starts_with needle hay ||
  match hay with
  | [] => false
  | _ :: h' => contains needle h'
  end.

End PyStr.

Import PyStr.

(* ================================================================== *)
(** * The normaliser ([app.py], [STATUS_KEYWORDS], [normalize_status]) *)
(* ================================================================== *)

(** The keys of [STATUS_KEYWORDS]. *)
Inductive target : Type :=
  | rejected | offer | onsite | interview | ranked | applied.

(** The keyword lists of the six families. *)
Definition rejected_keywords : list pystr :=
  [ lit "unfilled"; lit "filled"; lit "cancelled"; lit "canceled";
    lit "closed"; lit "not selected"; lit "rejected"; lit "unsuccessful";
    lit "declined"; lit "did not proceed" ].
Definition offer_keywords : list pystr :=
  [ lit "offer"; lit "accepted"; lit "accept" ].
Definition onsite_keywords : list pystr :=
  [ lit "onsite"; lit "final round" ].
Definition interview_keywords : list pystr :=
  [ lit "interview"; lit "phone screen"; lit "screen"; lit "assessment" ].
Definition ranked_keywords : list pystr :=
  [ lit "ranked"; lit "alternate"; lit "shortlist"; lit "pool" ].
Definition applied_keywords : list pystr :=
  [ lit "applied"; lit "submitted"; lit "received"; lit "under review";
    lit "in progress" ].

(** The dictionary, in insertion order, which is its iteration order. *)
Definition STATUS_KEYWORDS : list (target * list pystr) :=
  [ (rejected, rejected_keywords);
    (offer, offer_keywords);
    (onsite, onsite_keywords);
    (interview, interview_keywords);
    (ranked, ranked_keywords);
    (applied, applied_keywords) ].

(** The dictionary literal indexed by [target] in the [return]. *)
Definition canonical_label (t : target) : pystr :=
  match t with
  | rejected => lit "Rejected"
  | offer => lit "Offer"
  | onsite => lit "Onsite"
  | interview => lit "Interview"
  | ranked => lit "Ranked"
  | applied => lit "Applied"
  end.

(** [any(keyword in lowered for keyword in keywords)] *)
Definition any_keyword_in (lowered : pystr) (keywords : list pystr) : bool :=
  existsb (fun keyword => contains keyword lowered) keywords.

(** The [for] loop: the first family one of whose keywords occurs. *)
Fixpoint first_family (lowered : pystr) (items : list (target * list pystr))
  : option target :=
  match items with
  | [] => None
  | (t, keywords) :: rest =>
      if any_keyword_in lowered keywords then Some t
      else first_family lowered rest
  end.

(** [raw_status or ""] is [raw_status] itself on a [str]. *)
Definition normalize_status (U : ucd) (raw_status : pystr) : pystr :=
  let text := strip U raw_status in
  let lowered := lower U text in
  match first_family lowered STATUS_KEYWORDS with
  | Some t => canonical_label t
  | None => if truthy text then title U text else lit "Applied"
  end.

(** No keyword of any family occurs in [lowered]. *)
Definition no_keyword_occurs (lowered : pystr) : bool :=
  forallb (fun it => negb (any_keyword_in lowered (snd it))) STATUS_KEYWORDS.

(** The six canonical labels. *)
Definition canonical_labels : list pystr :=
  [ lit "Applied"; lit "Interview"; lit "Onsite"; lit "Offer"; lit "Ranked";
    lit "Rejected" ].

(** An excerpt of the character database beyond ASCII: the rows of
    U+00DF (sharp s), U+03A3 / U+03C3 / U+03C2 (the sigmas), U+00A0
    (no-break space) and U+FB01 (the ligature fi); the remaining code
    points are given the row of a caseless, non-blank character. *)
Definition ucd_excerpt : ucd :=
  {| u_space := fun c => N.eqb c 160;
     u_cased := fun c =>
       N.eqb c 223 || N.eqb c 931 || N.eqb c 962 || N.eqb c 963
       || N.eqb c 64257;
     u_case_ignorable := fun _ => false;
     u_lower := fun c => if N.eqb c 931 then [963%N] else [c];
     u_title := fun c =>
       if N.eqb c 223 then [83; 115]%N
       else if N.eqb c 963 then [931%N]
       else if N.eqb c 962 then [931%N]
       else if N.eqb c 64257 then [70; 105]%N
       else [c] |}.


(* ================================================================== *)
(** * The store (table [applications] of [init_db]) *)
(* ================================================================== *)

(** The nine data columns, in the order of [data_to_tuple].  The type of
    [status] is a parameter: a [str] in a stored row, and possibly absent
    in the dictionary handed to the reconciler, which reads it with
    [data.get("status", "Applied")]. *)
Record fields (S : Type) : Type := Fields {
  company : pystr;
  role : pystr;
  location : pystr;
  status : S;
  applied_date : pystr;
  follow_up_date : option pystr;
  source : pystr;
  notes : pystr;
  url : pystr
}.

(** The dictionary [data] of [upsert_application]. *)
Definition data := fields (option pystr).

(** The tuple bound to the nine placeholders of INSERT and UPDATE. *)
Definition application := fields pystr.

Definition set_status {S T : Type} (d : fields S) (s : T) : fields T :=
  {| company := company d; role := role d; location := location d;
     status := s; applied_date := applied_date d;
     follow_up_date := follow_up_date d; source := source d;
     notes := notes d; url := url d |}.

Record row : Type := Row { id : Z; cols : application }.

(** The table: its rows in rowid order, and the largest rowid ever
    handed out (table [sqlite_sequence]).  Rowids are unbounded here;
    SQLite's are 64-bit. *)
Record db : Type := DB { rows : list row; sqlite_sequence : Z }.

Definition empty_db : db := {| rows := []; sqlite_sequence := 0 |}.

Definition max_rowid (rs : list row) : Z :=
  fold_right (fun r m => Z.max (id r) m) 0%Z rs.

(** The key AUTOINCREMENT gives to the next inserted row. *)
Definition next_rowid (d : db) : Z :=
  (Z.max (sqlite_sequence d) (max_rowid (rows d)) + 1)%Z.

(** [WHERE company = ? AND role = ?] *)
Definition same_key (c r : pystr) (x : row) : bool :=
  PyStr.eqb (company (cols x)) c && PyStr.eqb (role (cols x)) r.

(** [SELECT id FROM applications WHERE company = ? AND role = ?],
    [fetchone()]: the first matching row of the scan, or [None]. *)
Definition select_id (d : db) (c r : pystr) : option Z :=
  option_map id (find (same_key c r) (rows d)).

(** [SELECT * FROM applications WHERE id = ?], [fetchone()]. *)
Definition select_by_id (d : db) (i : Z) : option row :=
  find (fun x => Z.eqb (id x) i) (rows d).

(** [INSERT INTO applications (...) VALUES (?, ..., ?)] *)
Definition insert_row (d : db) (a : application) : db :=
  let i := next_rowid d in
  {| rows := rows d ++ [ {| id := i; cols := a |} ];
     sqlite_sequence := i |}.

(** [UPDATE applications SET ... WHERE id = ?] *)
Definition update_row (d : db) (i : Z) (a : application) : db :=
  {| rows := map (fun x => if Z.eqb (id x) i
                           then {| id := id x; cols := a |} else x) (rows d);
     sqlite_sequence := sqlite_sequence d |}.

(** [DELETE FROM applications WHERE id = ?] *)
Definition delete_row (d : db) (i : Z) : db :=
  {| rows := filter (fun x => negb (Z.eqb (id x) i)) (rows d);
     sqlite_sequence := sqlite_sequence d |}.

(** A row carries the dedup key (company, role). *)
Definition has_key (c r : pystr) (x : row) : Prop :=
  company (cols x) = c /\ role (cols x) = r.

(** [SELECT COUNT( * ) FROM applications] *)
Definition count_rows (d : db) : nat := length (rows d).

(** The invariant the PRIMARY KEY gives: rows are kept by increasing
    rowid, so no two rows share one. *)
Definition db_ok (d : db) : Prop :=
  StronglySorted Z.lt (map id (rows d)).

(* ================================================================== *)
(** * The reconciler ([upsert_application]) *)
(* ================================================================== *)

Section Reconciler.

Variable U : ucd.

(** [normalized = {**data}] with [normalized["status"]] replaced. *)
Definition normalized_of (dt : data) : application :=
  set_status dt
    (normalize_status U
       (match status dt with Some s => s | None => lit "Applied" end)).

Definition upsert_application (conn : db) (dt : data) : db :=
  let normalized := normalized_of dt in
  match select_id conn (company normalized) (role normalized) with
  | Some existing => update_row conn existing normalized
  | None => insert_row conn normalized
  end.

(* ================================================================== *)
(** * Manual entry ([form_to_application], [add_application]) *)
(* ================================================================== *)

(** The submitted form, a multi-dictionary: [get] yields the first value
    of the key, or the default. *)
Definition form := list (string * pystr).

Fixpoint form_get (f : form) (key : string) (default : pystr) : pystr :=
  match f with
  | [] => default
  | (k, v) :: rest => if String.eqb k key then v else form_get rest key default
  end.

(** [today] is [date.today().isoformat()]. *)
Definition form_to_application (today : pystr) (f : form) : application :=
  let applied := form_get f "applied_date" [] in
  let follow_up :=
    let v := form_get f "follow_up_date" [] in
    if truthy v then Some v else None in
  let applied := if truthy applied then applied else today in
  let status := normalize_status U (form_get f "status" (lit "Applied")) in
  {| company := strip U (form_get f "company" []);
     role := strip U (form_get f "role" []);
     location := strip U (form_get f "location" []);
     status := status;
     applied_date := applied;
     follow_up_date := follow_up;
     source := strip U (form_get f "source" []);
     notes := strip U (form_get f "notes" []);
     url := strip U (form_get f "url" []) |}.

Inductive http_method : Type := GET | POST.

(** The effect of the route [/applications/new] on the store. *)
Definition add_application (today : pystr) (m : http_method) (conn : db)
    (f : form) : db :=
  match m with
  | POST => insert_row conn (form_to_application today f)
  | GET => conn
  end.

(* ================================================================== *)
(** * The crawler's row loop ([crawler.py], [crawl_and_sync]) *)
(* ================================================================== *)

(** A row handle of the page: what [query_selector] followed by
    [inner_text] gives for a selector, [None] when nothing is selected. *)
Definition element := pystr -> option pystr.

Definition extract_text (el : element) (selector : pystr) : pystr :=
  if negb (truthy selector) then []
  else match el selector with
       | None => []
       | Some text => strip U text
       end.

Record crawl_args : Type := CrawlArgs {
  target_url : pystr;
  company_selector : pystr;
  role_selector : pystr;
  status_selector : pystr;
  location_selector : option pystr;
  source_label : pystr
}.

Variable args : crawl_args.
Variable today : pystr.

(** The dictionary built for a row that passed the presence check. *)
Definition row_data (el : element) (company role status_raw : pystr) : data :=
  let status := normalize_status U status_raw in
  let location :=
    match location_selector args with
    | Some sel => if truthy sel then extract_text el sel else []
    | None => []
    end in
  {| company := company; role := role; location := location;
     status := Some status; applied_date := today; follow_up_date := None;
     source := source_label args;
     notes := lit "Imported via crawler from " ++ target_url args;
     url := target_url args |}.

(** One iteration of [for row in rows]; the state is the store and the
    counter [imported]. *)
Definition crawl_row (st : db * Z) (el : element) : db * Z :=
  let status_raw := extract_text el (status_selector args) in
  let company := extract_text el (company_selector args) in
  let role := extract_text el (role_selector args) in
  if negb (truthy company && truthy role && truthy status_raw) then st
  else (upsert_application (fst st) (row_data el company role status_raw),
        (snd st + 1)%Z).

(** The presence check as the specification words it: company, role or
    raw status is empty. *)
Definition missing_required (el : element) : bool :=
  is_empty (extract_text el (company_selector args))
  || is_empty (extract_text el (role_selector args))
  || is_empty (extract_text el (status_selector args)).

(** The dictionary the loop hands to the reconciler for a row. *)
Definition scraped (el : element) : data :=
  row_data el (extract_text el (company_selector args))
              (extract_text el (role_selector args))
              (extract_text el (status_selector args)).

(** The loop from [imported = 0] on, and the value returned, which
    [main] prints. *)
Definition crawl_and_sync (conn : db) (page_rows : list element) : db * Z :=
  fold_left crawl_row page_rows (conn, 0%Z).

End Reconciler.

(** The stores the program can be in: the empty table of [init_db],
    then any sequence of INSERT (seeding, manual add), UPDATE by id
    (edit), DELETE by id and upsert. *)
Inductive reachable (U : ucd) : db -> Prop :=
  | reach_init : reachable U empty_db
  | reach_insert conn a :
      reachable U conn -> reachable U (insert_row conn a)
  | reach_update conn i a :
      reachable U conn -> reachable U (update_row conn i a)
  | reach_delete conn i :
      reachable U conn -> reachable U (delete_row conn i)
  | reach_upsert conn dt :
      reachable U conn -> reachable U (upsert_application U conn dt).

(* ================================================================== *)
(** * The stage breakdown ([fetch_stage_breakdown]) *)
(* ================================================================== *)

(** [GROUP BY status] with [COUNT( * )]: one group per status, here in
    the order of first occurrence. *)
Definition group_by_status (rs : list row) : list (pystr * nat) :=
  let statuses := map (fun x => status (cols x)) rs in
  map (fun s => (s, count_occ PyStr.eq_dec statuses s))
      (nodup PyStr.eq_dec statuses).

(** [ORDER BY count DESC]; SQL leaves the order of equal counts open,
    here a group stays before the later groups of the same count. *)
Fixpoint insert_desc (g : pystr * nat) (l : list (pystr * nat))
  : list (pystr * nat) :=
  match l with
  | [] => [g]
  | h :: t => if (snd h <? snd g)%nat then g :: l else h :: insert_desc g t
  end.

Definition order_by_count_desc (l : list (pystr * nat)) : list (pystr * nat) :=
  fold_right insert_desc [] l.

Definition fetch_stage_breakdown (conn : db) : list (pystr * nat) :=
  order_by_count_desc (group_by_status (rows conn)).

(** The number of records that carry the status [s]. *)
Definition records_with_status (conn : db) (s : pystr) : nat :=
  length (filter (fun x => PyStr.eqb (status (cols x)) s) (rows conn)).

(** Counts never increase along the list. *)
Definition count_desc (g h : pystr * nat) : Prop := (snd h <= snd g)%nat.

(* ================================================================== *)
(** * Sample data *)
(* ================================================================== *)

Module Sample.

Definition acme_intern : application :=
  {| company := lit "Acme"; role := lit "Intern"; location := lit "Toronto, ON";
     status := lit "Applied"; applied_date := lit "2024-01-05";
     follow_up_date := None; source := lit "LinkedIn";
     notes := lit "Recruiter asked for a portfolio."; url := lit "" |}.

Definition volt_coop : application :=
  {| company := lit "Volt Robotics"; role := lit "Firmware Co-op";
     location := lit "Waterloo, ON"; status := lit "Interview";
     applied_date := lit "2024-01-09"; follow_up_date := Some (lit "2024-01-20");
     source := lit "WaterlooWorks"; notes := lit ""; url := lit "" |}.

(** A second (Acme, Intern), as the manual-add route leaves it. *)
Definition acme_again : application :=
  {| company := lit "Acme"; role := lit "Intern"; location := lit "";
     status := lit "Applied"; applied_date := lit "2024-02-01";
     follow_up_date := None; source := lit ""; notes := lit "typed twice";
     url := lit "" |}.

(** Row 3 was deleted; the counter remembers the largest key handed out. *)
Definition store : db :=
  {| rows := [ {| id := 1; cols := acme_intern |};
               {| id := 2; cols := volt_coop |};
               {| id := 4; cols := acme_again |} ];
     sqlite_sequence := 4 |}.

(** A scraped (Acme, Intern) with empty notes. *)
Definition scraped_acme : data :=
  {| company := lit "Acme"; role := lit "Intern"; location := lit "";
     status := Some (lit "Position Filled"); applied_date := lit "2024-03-01";
     follow_up_date := None; source := lit "Crawler"; notes := lit "";
     url := lit "" |}.

(** A scraped posting the store has not seen. *)
Definition scraped_quark : data :=
  {| company := lit "Quark Labs"; role := lit "Platform Co-op";
     location := lit "Montreal, QC"; status := Some (lit "under review");
     applied_date := lit "2024-03-01"; follow_up_date := None;
     source := lit "Crawler"; notes := lit ""; url := lit "" |}.

(** A submitted form for (Acme, Intern). *)
Definition acme_form : form :=
  [ ("company"%string, lit " Acme "); ("role"%string, lit "Intern");
    ("status"%string, lit "") ].

(** A page of three table rows: a header row without cells, a full
    row, and a row whose status cell is blank. *)
Definition args : crawl_args :=
  {| target_url := lit "https://example.com/applications";
     company_selector := lit "td:nth-child(1)";
     role_selector := lit "td:nth-child(2)";
     status_selector := lit "td:nth-child(3)";
     location_selector := None;
     source_label := lit "Crawler" |}.

Definition header_row : element := fun _ => None.

Definition cells (c r s : pystr) : element :=
  fun selector =>
    if PyStr.eqb selector (lit "td:nth-child(1)") then Some c
    else if PyStr.eqb selector (lit "td:nth-child(2)") then Some r
    else if PyStr.eqb selector (lit "td:nth-child(3)") then Some s
    else None.

Definition page : list element :=
  [ header_row;
    cells (lit "Acme") (lit " Intern ") (lit "Position Filled");
    cells (lit "Volt Robotics") (lit "Firmware Co-op") (lit "  ") ].

End Sample.

(* ================================================================== *)
(** * The edit and delete routes ([edit_application],
      [delete_application]) *)
(* ================================================================== *)

(** What the edit route answers: the "not found" flash, the "updated"
    flash, or the form filled with the existing row. *)
Inductive edit_result : Type :=
  | edit_not_found
  | edit_updated
  | edit_form (existing : row).

(** The effect of [/applications/<app_id>/edit] on the store, and its
    answer.  The row is looked up first, for either method. *)
Definition edit_application (U : ucd) (today : pystr) (m : http_method)
    (conn : db) (app_id : Z) (f : form) : db * edit_result :=
  match select_by_id conn app_id with
  | None => (conn, edit_not_found)
  | Some existing =>
      match m with
      | POST =>
          (update_row conn app_id (form_to_application U today f),
           edit_updated)
      | GET => (conn, edit_form existing)
      end
  end.

(** The effect of [/applications/<app_id>/delete] (POST only) on the
    store; the flash "Application deleted." is the same in every case. *)
Definition delete_application (conn : db) (app_id : Z) : db :=
  delete_row conn app_id.

(** The dedup key of a row, and stores in which no two rows share it. *)
Definition key (x : row) : pystr * pystr :=
  (company (cols x), role (cols x)).

Definition keys_unique (conn : db) : Prop := NoDup (map key (rows conn)).

(** One statement run against the store by some route or by the
    crawler, and any number of them in a row. *)
Inductive step (U : ucd) : db -> db -> Prop :=
  | step_insert conn a : step U conn (insert_row conn a)
  | step_update conn i a : step U conn (update_row conn i a)
  | step_delete conn i : step U conn (delete_row conn i)
  | step_upsert conn dt : step U conn (upsert_application U conn dt).

Inductive evolves (U : ucd) : db -> db -> Prop :=
  | evolves_refl conn : evolves U conn conn
  | evolves_step conn conn' conn'' :
      evolves U conn conn' -> step U conn' conn'' -> evolves U conn conn''.

(* ================================================================== *)
(** * The dashboard counts ([fetch_stats]) *)
(* ================================================================== *)

(** The four COUNT queries of [fetch_stats], under the names of the
    local variables that hold them.  The entry "response_rate" of the
    returned dictionary is a rounded floating-point quotient of
    [responded] and [total] and is not modelled. *)
Module FetchStats.

Definition interview_statuses : list pystr :=
  [ lit "Phone Screen"; lit "Interview"; lit "Onsite"; lit "Offer";
    lit "Ranked" ].

Definition total (conn : db) : nat := count_rows conn.

(** [WHERE status IN ('Phone Screen', 'Interview', 'Onsite', 'Offer',
    'Ranked')] *)
Definition interviews (conn : db) : nat :=
  length (filter (fun x => existsb (PyStr.eqb (status (cols x)))
                             interview_statuses) (rows conn)).

(** [WHERE status = 'Offer'] *)
Definition offers (conn : db) : nat :=
  length (filter (fun x => PyStr.eqb (status (cols x)) (lit "Offer"))
            (rows conn)).

(** [WHERE status != 'Applied'] *)
Definition responded (conn : db) : nat :=
  length (filter (fun x => negb (PyStr.eqb (status (cols x)) (lit "Applied")))
            (rows conn)).

End FetchStats.

(* ================================================================== *)
(** * Dates, seeding and [ensure_database] *)
(* ================================================================== *)

Module PyDate.

Local Open Scope Z_scope.

(** [datetime.date]. *)
Record date : Type := Date { year : Z; month : Z; day : Z }.

Definition is_leap (y : Z) : bool :=
  (y mod 4 =? 0) && (negb (y mod 100 =? 0) || (y mod 400 =? 0)).

Definition days_in_month (y m : Z) : Z :=
  if m =? 2 then (if is_leap y then 29 else 28)
  else if (m =? 4) || (m =? 6) || (m =? 9) || (m =? 11) then 30
  else 31.

(** The check of the [date] constructor: MINYEAR..MAXYEAR, 1..12 and the
    day within the month. *)
Definition valid (d : date) : bool :=
  (1 <=? year d) && (year d <=? 9999)
  && (1 <=? month d) && (month d <=? 12)
  && (1 <=? day d) && (day d <=? days_in_month (year d) (month d)).

(** [d.replace(day=n)]; [None] stands for the [ValueError]. *)
Definition replace_day (d : date) (n : Z) : option date :=
  let d' := {| year := year d; month := month d; day := n |} in
  if valid d' then Some d' else None.

Definition digit (n : Z) : codepoint := Z.to_N (48 + n mod 10).

(** [str(d)], which is [d.isoformat()]: "%04d-%02d-%02d". *)
Definition isoformat (d : date) : pystr :=
  [ digit (year d / 1000); digit (year d / 100); digit (year d / 10);
    digit (year d) ]
  ++ lit "-" ++ [ digit (month d / 10); digit (month d) ]
  ++ lit "-" ++ [ digit (day d / 10); digit (day d) ].

(** [str(today.replace(day=max(1, today.day - n)))] *)
Definition days_back (today : date) (n : Z) : option pystr :=
  option_map isoformat (replace_day today (Z.max 1 (day today - n))).

End PyDate.

Import PyDate.

Definition bind {A B : Type} (o : option A) (f : A -> option B) : option B :=
  match o with Some a => f a | None => None end.

(** The five rows of [sample_rows], given the eight date strings. *)
Definition sample_rows (d18 d9 d30 d15 d45 d10 d60 d25 : pystr)
  : list application :=
  [ {| company := lit "DeepPixel AI"; role := lit "ML Intern";
       location := lit "Toronto, ON"; status := lit "Phone Screen";
       applied_date := d18; follow_up_date := None;
       source := lit "LinkedIn";
       notes :=
         lit "Reached out to recruiter on LinkedIn. Prep system design.";
       url := lit "https://example.com/deeppixel" |};
    {| company := lit "Volt Robotics"; role := lit "Firmware Co-op";
       location := lit "Waterloo, ON"; status := lit "Applied";
       applied_date := d9; follow_up_date := None;
       source := lit "WaterlooWorks"; notes := lit ""; url := lit "" |};
    {| company := lit "Aurora Cloud"; role := lit "Backend Intern";
       location := lit "Remote (Canada)"; status := lit "Interview";
       applied_date := d30; follow_up_date := Some d15;
       source := lit "Company Careers";
       notes := lit "Take-home API design sent.";
       url := lit "https://example.com/aurora" |};
    {| company := lit "Quark Labs";
       role := lit "Platform Engineering Co-op";
       location := lit "Montreal, QC"; status := lit "Offer";
       applied_date := d45; follow_up_date := Some d10;
       source := lit "Referral"; notes := lit "Offer pending negotiation.";
       url := lit "" |};
    {| company := lit "Northwind Energy"; role := lit "Data Intern";
       location := lit "Calgary, AB"; status := lit "Rejected";
       applied_date := d60; follow_up_date := Some d25;
       source := lit "Indeed"; notes := lit "Need more SQL practice.";
       url := lit "" |} ].

(** [seed_sample_data]: the list is built first, so a failing date
    leaves the table as it was; [executemany] then inserts in order. *)
Definition seed_sample_data (conn : db) (today : date) : option db :=
  bind (days_back today 18) (fun d18 =>
  bind (days_back today 9) (fun d9 =>
  bind (days_back today 30) (fun d30 =>
  bind (days_back today 15) (fun d15 =>
  bind (days_back today 45) (fun d45 =>
  bind (days_back today 10) (fun d10 =>
  bind (days_back today 60) (fun d60 =>
  bind (days_back today 25) (fun d25 =>
  Some (fold_left insert_row
          (sample_rows d18 d9 d30 d15 d45 d10 d60 d25) conn))))))))).

(** [ensure_database]: [init_db] creates the table only when it is
    missing, and the samples go in when the table has no row. *)
Definition ensure_database (conn : db) (today : date) : option db :=
  if (count_rows conn =? 0)%nat then seed_sample_data conn today
  else Some conn.

(* ================================================================== *)
(** * The command line of the crawler ([main]) *)
(* ================================================================== *)

Module Cli.

Inductive preset_name : Type := waterlooworks.

(** The namespace [parse_args] returns. *)
Record namespace : Type := Namespace {
  preset : option preset_name;
  login_url : option pystr;
  target_url : option pystr;
  username : option pystr;
  password : option pystr;
  row_selector : pystr;
  company_selector : pystr;
  role_selector : pystr;
  status_selector : pystr;
  location_selector : option pystr;
  nav_link_text : option pystr;
  login_wait_ms : Z;
  headful : bool;
  source_label : pystr
}.

(** The namespace when no option is given; the two credentials default
    to the environment variables WW_USERNAME and WW_PASSWORD. *)
Definition defaults (ww_username ww_password : option pystr) : namespace :=
  {| preset := None; login_url := None; target_url := None;
     username := ww_username; password := ww_password;
     row_selector := lit "table tr";
     company_selector := lit "td:nth-child(1)";
     role_selector := lit "td:nth-child(2)";
     status_selector := lit "td:nth-child(3)";
     location_selector := None; nav_link_text := None;
     login_wait_ms := 4000; headful := false;
     source_label := lit "Crawler" |}.

(** [a or b] on strings and on optional strings. *)
Definition or_str (a b : pystr) : pystr := if truthy a then a else b.

Definition or_opt (a : option pystr) (b : pystr) : pystr :=
  match a with Some s => or_str s b | None => b end.

Definition or_opt_opt (a b : option pystr) : option pystr :=
  match a with
  | Some s => if truthy s then Some s else b
  | None => b
  end.

Definition dashboard_url : pystr :=
  lit "https://waterlooworks.uwaterloo.ca/myAccount/dashboard.htm".

(** The block [if args.preset == "waterlooworks"]. *)
Definition apply_preset (a : namespace) : namespace :=
  match preset a with
  | Some waterlooworks =>
      {| preset := preset a;
         login_url := Some (or_opt (login_url a) dashboard_url);
         target_url := Some (or_opt (target_url a) dashboard_url);
         username := username a; password := password a;
         row_selector := or_str (row_selector a) (lit "table tbody tr");
         company_selector :=
           or_str (company_selector a) (lit "td:nth-child(2)");
         role_selector := or_str (role_selector a) (lit "td:nth-child(3)");
         status_selector :=
           or_str (status_selector a) (lit "td:nth-child(4)");
         location_selector :=
           Some (or_opt (location_selector a) (lit "td:nth-child(5)"));
         nav_link_text :=
           Some (or_opt (nav_link_text a) (lit "Postings / Applications"));
         login_wait_ms := login_wait_ms a; headful := headful a;
         source_label := or_str (source_label a) (lit "WaterlooWorks") |}
  | None => a
  end.

(** The keyword arguments [main] passes to [crawl_and_sync]: those of
    the namespace after the preset, [login_url] falling back on
    [target_url]. *)
Definition crawl_kwargs (a : namespace) : namespace :=
  let a' := apply_preset a in
  {| preset := preset a';
     login_url := or_opt_opt (login_url a') (target_url a');
     target_url := target_url a';
     username := username a'; password := password a';
     row_selector := row_selector a';
     company_selector := company_selector a';
     role_selector := role_selector a';
     status_selector := status_selector a';
     location_selector := location_selector a';
     nav_link_text := nav_link_text a';
     login_wait_ms := login_wait_ms a'; headful := headful a';
     source_label := source_label a' |}.

End Cli.

(** A day early in a month, and a form that edits a row into
    (Acme, Intern). *)
Module SampleMore.

Definition march_5 : date := {| year := 2024; month := 3; day := 5 |}.

Definition edit_form_acme : form :=
  [ ("company"%string, lit "Acme"); ("role"%string, lit " Intern");
    ("status"%string, lit "final round");
    ("applied_date"%string, lit "2024-01-09") ].

Definition emptied : db := {| rows := []; sqlite_sequence := 7 |}.

Definition repeated_page : list element :=
  [ Sample.cells (lit "Acme") (lit "Intern") (lit "applied");
    Sample.header_row;
    Sample.cells (lit "Acme") (lit "Intern") (lit "Offer extended") ].

End SampleMore.

(* ================================================================== *)
(** * Facts about the string operations *)
(* ================================================================== *)

Module PyStrFacts.

Local Open Scope N_scope.

Lemma eqb_eq (s t : pystr) : PyStr.eqb s t = true <-> s = t.
Proof.
  revert t; induction s as [|a s IH]; intros [|b t]; simpl;
    try (split; [discriminate | congruence]); try tauto.
  rewrite andb_true_iff, N.eqb_eq, IH.
  split; [intros [-> ->]; reflexivity | intros H; inversion H; auto].
Qed.

Lemma eqb_refl (s : pystr) : PyStr.eqb s s = true.
Proof. apply eqb_eq; reflexivity. Qed.

(** [starts_with] and [contains] decide "is a prefix" and "occurs in". *)
Lemma starts_with_spec (needle hay : pystr) :
  starts_with needle hay = true <-> exists post, hay = needle ++ post.
Proof.
  revert hay; induction needle as [|a n IH]; intros hay; simpl.
  - split; [intros _; exists hay; reflexivity | reflexivity].
  - destruct hay as [|b h].
    + split; [discriminate | intros [post H]; discriminate].
    + rewrite andb_true_iff, N.eqb_eq, IH. split.
      * intros [-> [post ->]]. exists post; reflexivity.
      * intros [post H]. inversion H; subst. split; eauto.
Qed.

Lemma contains_spec (needle hay : pystr) :
  contains needle hay = true <->
  exists pre post, hay = pre ++ needle ++ post.
Proof.
  induction hay as [|b h IH].
  - simpl. rewrite orb_false_r, starts_with_spec. split.
    + intros [post H]. exists [], post. exact H.
    + intros [pre [post H]]. destruct pre; [|discriminate].
      exists post. exact H.
  - cbn [contains]. rewrite orb_true_iff, starts_with_spec, IH. split.
    + intros [[post H] | [pre [post H]]].
      * exists [], post. exact H.
      * exists (b :: pre), post. simpl. congruence.
    + intros [[|c pre] [post H]].
      * left. exists post. exact H.
      * right. inversion H; subst. eauto.
Qed.

Lemma contains_nil_hay (needle : pystr) :
  truthy needle = true -> contains needle [] = false.
Proof. destruct needle; [discriminate | reflexivity]. Qed.

Section Strip.

Variable U : ucd.

Lemma lstrip_head_ok (s : pystr) : head_ok U (lstrip U s) = true.
Proof.
  induction s as [|c r IH]; simpl; auto.
  destruct (is_space U c) eqn:E; auto. simpl. rewrite E. reflexivity.
Qed.

Lemma head_ok_lstrip (s : pystr) : head_ok U s = true -> lstrip U s = s.
Proof.
  destruct s as [|c r]; simpl; auto.
  destruct (is_space U c); [discriminate | reflexivity].
Qed.

Lemma rstrip_head_ok (s : pystr) : head_ok U s = true -> head_ok U (rstrip U s) = true.
Proof.
  destruct s as [|c r]; simpl; auto.
  intros H. destruct (rstrip U r); [|exact H].
  destruct (is_space U c) eqn:E; [discriminate | simpl; rewrite E; reflexivity].
Qed.

Lemma rstrip_idem (s : pystr) : rstrip U (rstrip U s) = rstrip U s.
Proof.
  induction s as [|c r IH]; simpl; auto.
  destruct (rstrip U r) as [|x r'] eqn:E.
  - destruct (is_space U c) eqn:Ec; simpl; [reflexivity | rewrite Ec; reflexivity].
  - cbn [rstrip]. cbn [rstrip] in IH. rewrite IH. reflexivity.
Qed.

Lemma strip_head_ok (s : pystr) : head_ok U (strip U s) = true.
Proof. apply rstrip_head_ok, lstrip_head_ok. Qed.

Lemma strip_rstrip (s : pystr) : rstrip U (strip U s) = strip U s.
Proof. apply rstrip_idem. Qed.

Lemma strip_idem (s : pystr) : strip U (strip U s) = strip U s.
Proof.
  unfold strip at 1. rewrite head_ok_lstrip by apply strip_head_ok.
  apply strip_rstrip.
Qed.

Lemma lstrip_nil_iff (s : pystr) : lstrip U s = [] <-> blank U s = true.
Proof.
  induction s as [|c r IH]; simpl; [tauto|].
  destruct (is_space U c); simpl; [exact IH | split; discriminate].
Qed.

Lemma rstrip_nil_iff (s : pystr) : rstrip U s = [] <-> blank U s = true.
Proof.
  induction s as [|c r IH]; simpl; [tauto|].
  destruct (rstrip U r) as [|x r'].
  - destruct (is_space U c); simpl.
    + split; [intros _; apply IH; reflexivity | reflexivity].
    + split; discriminate.
  - split; [discriminate|]. rewrite andb_true_iff. intros [_ H].
    apply IH in H. discriminate.
Qed.

Lemma lstrip_suffix (s : pystr) :
  exists pre, s = pre ++ lstrip U s /\ blank U pre = true.
Proof.
  induction s as [|c r [pre [E B]]]; simpl.
  - exists []. auto.
  - destruct (is_space U c) eqn:Ec.
    + exists (c :: pre). simpl. rewrite Ec, B. split; [congruence | reflexivity].
    + exists []. auto.
Qed.

Lemma rstrip_prefix (s : pystr) :
  exists post, s = rstrip U s ++ post /\ blank U post = true.
Proof.
  induction s as [|c r [post [E B]]]; simpl.
  - exists []. auto.
  - destruct (rstrip U r) as [|x r'].
    + destruct (is_space U c) eqn:Ec.
      * exists (c :: post). simpl in *. rewrite Ec, B. split; [congruence | reflexivity].
      * exists post. simpl in *. split; congruence.
    + exists post. simpl in *. split; congruence.
Qed.

(** [strip] removes a blank U prefix and a blank U suffix, and what is left
    is empty exactly when the whole string was blank. *)
Lemma strip_spec (s : pystr) :
  exists pre post,
    s = pre ++ strip U s ++ post /\ blank U pre = true /\ blank U post = true.
Proof.
  destruct (lstrip_suffix s) as [pre [E B]].
  destruct (rstrip_prefix (lstrip U s)) as [post [E' B']].
  exists pre, post. unfold strip. rewrite <- E'. auto.
Qed.

Lemma blank_app (s t : pystr) : blank U (s ++ t) = blank U s && blank U t.
Proof. apply forallb_app. Qed.

Lemma strip_nil_iff (s : pystr) : strip U s = [] <-> blank U s = true.
Proof.
  unfold strip. rewrite rstrip_nil_iff. split.
  - intros H. destruct (lstrip_suffix s) as [pre [E B]].
    rewrite E, blank_app, B, H. reflexivity.
  - intros H. destruct (lstrip_suffix s) as [pre [E B]].
    rewrite E, blank_app, andb_true_iff in H. tauto.
Qed.

End Strip.

End PyStrFacts.

Import PyStrFacts.

(* ================================================================== *)
(** * Strings of ASCII characters *)
(* ================================================================== *)

Module AsciiFacts.

Local Open Scope N_scope.

Ltac ascii_cases :=
  unfold ascii_lower, ascii_upper, ascii_cased, ascii_space, is_ascii,
    ascii_upper_letter, ascii_lower_letter in *;
  repeat match goal with
  | |- context [N.leb ?a ?b] => destruct (N.leb_spec a b)
  | |- context [N.ltb ?a ?b] => destruct (N.ltb_spec a b)
  | |- context [N.eqb ?a ?b] => destruct (N.eqb_spec a b)
  | H : context [N.ltb ?a ?b] |- _ => destruct (N.ltb_spec a b)
  end;
  cbn [andb orb negb] in *;
  repeat match goal with
  | |- context [N.leb ?a ?b] => destruct (N.leb_spec a b)
  | |- context [N.eqb ?a ?b] => destruct (N.eqb_spec a b)
  end;
  cbn [andb orb negb] in *;
  try reflexivity; try discriminate; try (f_equal; lia); try lia.

Lemma lower_lower c : ascii_lower (ascii_lower c) = ascii_lower c.
Proof. ascii_cases. Qed.

Lemma lower_upper c : ascii_lower (ascii_upper c) = ascii_lower c.
Proof. ascii_cases. Qed.

Lemma upper_upper c : ascii_upper (ascii_upper c) = ascii_upper c.
Proof. ascii_cases. Qed.

Lemma cased_lower c : ascii_cased (ascii_lower c) = ascii_cased c.
Proof. ascii_cases. Qed.

Lemma cased_upper c : ascii_cased (ascii_upper c) = ascii_cased c.
Proof. ascii_cases. Qed.

Lemma space_lower c : ascii_space (ascii_lower c) = ascii_space c.
Proof. ascii_cases. Qed.

Lemma space_upper c : ascii_space (ascii_upper c) = ascii_space c.
Proof. ascii_cases. Qed.

Lemma is_ascii_lower c : is_ascii c = true -> is_ascii (ascii_lower c) = true.
Proof. ascii_cases. Qed.

Lemma is_ascii_upper c : is_ascii c = true -> is_ascii (ascii_upper c) = true.
Proof. ascii_cases. Qed.

Lemma not_sigma c : is_ascii c = true -> (c =? 931) = false.
Proof. ascii_cases. Qed.

Section WithTables.

Variable U : ucd.

Lemma lower_ucs4_ascii before c after :
  is_ascii c = true -> lower_ucs4 U before c after = [ascii_lower c].
Proof.
  intros H. unfold lower_ucs4, to_lower_full. rewrite (not_sigma _ H), H.
  reflexivity.
Qed.

Lemma do_lower_ascii s :
  all_ascii s = true -> forall before, do_lower U before s = map ascii_lower s.
Proof.
  induction s as [|c r IH]; simpl; auto.
  rewrite andb_true_iff. intros [Hc Hr] before.
  rewrite lower_ucs4_ascii, IH by assumption. reflexivity.
Qed.

Lemma lower_ascii s : all_ascii s = true -> lower U s = map ascii_lower s.
Proof. intros H. apply do_lower_ascii, H. Qed.

Lemma do_title_ascii s :
  all_ascii s = true ->
  forall p before, do_title U p before s = title_ascii p s.
Proof.
  induction s as [|c r IH]; simpl; auto.
  rewrite andb_true_iff. intros [Hc Hr] p before.
  rewrite IH by assumption.
  unfold is_cased, to_title_full. rewrite lower_ucs4_ascii, Hc by assumption.
  destruct p; reflexivity.
Qed.

Lemma title_is_title_ascii s :
  all_ascii s = true -> title U s = title_ascii false s.
Proof. intros H. apply do_title_ascii, H. Qed.

Lemma title_ascii_all_ascii s :
  all_ascii s = true -> forall p, all_ascii (title_ascii p s) = true.
Proof.
  induction s as [|c r IH]; simpl; auto.
  rewrite andb_true_iff. intros [Hc Hr] p. rewrite IH by assumption.
  destruct p; [rewrite is_ascii_lower | rewrite is_ascii_upper]; auto.
Qed.

Lemma lower_title_ascii s p :
  map ascii_lower (title_ascii p s) = map ascii_lower s.
Proof.
  revert p; induction s as [|c r IH]; intros p; simpl; auto.
  rewrite IH. destruct p; [rewrite lower_lower | rewrite lower_upper];
    reflexivity.
Qed.

Lemma title_ascii_idem s p :
  title_ascii p (title_ascii p s) = title_ascii p s.
Proof.
  revert p; induction s as [|c r IH]; intros p; simpl; auto.
  destruct p.
  - rewrite lower_lower, cased_lower, IH. reflexivity.
  - rewrite upper_upper, cased_upper, IH. reflexivity.
Qed.

Lemma truthy_title_ascii s p : truthy (title_ascii p s) = truthy s.
Proof. destruct s; reflexivity. Qed.

Lemma is_space_ascii c : is_ascii c = true -> is_space U c = ascii_space c.
Proof. intros H. unfold is_space. rewrite H. reflexivity. Qed.

Lemma is_space_title_char c (p : bool) :
  is_ascii c = true ->
  is_space U (if p then ascii_lower c else ascii_upper c) = is_space U c.
Proof.
  intros H. rewrite (is_space_ascii _ H). destruct p.
  - rewrite is_space_ascii by (apply is_ascii_lower, H). apply space_lower.
  - rewrite is_space_ascii by (apply is_ascii_upper, H). apply space_upper.
Qed.

Lemma rstrip_title_ascii s :
  all_ascii s = true ->
  forall p, rstrip U (title_ascii p s) = title_ascii p (rstrip U s).
Proof.
  induction s as [|c r IH]; simpl; auto.
  rewrite andb_true_iff. intros [Hc Hr] p.
  rewrite IH by assumption.
  destruct (rstrip U r) as [|x r'] eqn:E; simpl.
  - rewrite is_space_title_char by assumption.
    destruct (is_space U c); reflexivity.
  - reflexivity.
Qed.

Lemma head_ok_title_ascii s p :
  all_ascii s = true -> head_ok U (title_ascii p s) = head_ok U s.
Proof.
  destruct s as [|c r]; simpl; auto.
  rewrite andb_true_iff. intros [Hc _].
  rewrite is_space_title_char by assumption. reflexivity.
Qed.

(** Title-casing a trimmed ASCII text gives a trimmed text. *)
Lemma strip_title_ascii s p :
  all_ascii s = true -> strip U s = s ->
  strip U (title_ascii p s) = title_ascii p s.
Proof.
  intros Ha Hs. unfold strip.
  rewrite head_ok_lstrip.
  - rewrite rstrip_title_ascii by assumption. f_equal.
    rewrite <- Hs. apply strip_rstrip.
  - rewrite head_ok_title_ascii by assumption.
    rewrite <- Hs. apply strip_head_ok.
Qed.

End WithTables.

End AsciiFacts.

Import AsciiFacts.

(* ================================================================== *)
(** * The normaliser: properties *)
(* ================================================================== *)

Lemma any_keyword_in_spec (lowered : pystr) (keywords : list pystr) :
  any_keyword_in lowered keywords = true <->
  exists keyword, In keyword keywords /\ contains keyword lowered = true.
Proof. unfold any_keyword_in. apply existsb_exists. Qed.

Lemma first_family_None (lowered : pystr) items :
  first_family lowered items = None <->
  forallb (fun it => negb (any_keyword_in lowered (snd it))) items = true.
Proof.
  induction items as [|[t kws] rest IH]; simpl; [tauto|].
  destruct (any_keyword_in lowered kws); simpl;
    [split; discriminate | exact IH].
Qed.

(** [no_keyword_occurs] says what it reads: no keyword of the table is a
    substring of the text. *)
Lemma no_keyword_occurs_spec (lowered : pystr) :
  no_keyword_occurs lowered = true <->
  forall t keywords keyword,
    In (t, keywords) STATUS_KEYWORDS -> In keyword keywords ->
    ~ exists pre post, lowered = pre ++ keyword ++ post.
Proof.
  unfold no_keyword_occurs. rewrite forallb_forall. split.
  - intros H t kws kw Hin Hkw Hex.
    specialize (H _ Hin). simpl in H. apply negb_true_iff in H.
    apply contains_spec in Hex.
    assert (any_keyword_in lowered kws = true)
      by (apply any_keyword_in_spec; eauto).
    congruence.
  - intros H [t kws] Hin. simpl. apply negb_true_iff.
    destruct (any_keyword_in lowered kws) eqn:E; [|reflexivity].
    apply any_keyword_in_spec in E. destruct E as [kw [Hkw Hc]].
    apply contains_spec in Hc. exfalso. eapply H; eauto.
Qed.

Lemma keywords_truthy :
  forallb (fun it => forallb truthy (snd it)) STATUS_KEYWORDS = true.
Proof. reflexivity. Qed.

Lemma no_keyword_occurs_nil : no_keyword_occurs [] = true.
Proof. reflexivity. Qed.

(** Every label of the return dictionary is a fixed point, whatever the
    tables beyond ASCII are. *)
Lemma normalize_canonical_label (U : ucd) (t : target) :
  normalize_status U (canonical_label t) = canonical_label t.
Proof. destruct t; vm_compute; reflexivity. Qed.

Lemma normalize_matched (U : ucd) (raw_status : pystr) (t : target) :
  first_family (lower U (strip U raw_status)) STATUS_KEYWORDS = Some t ->
  normalize_status U raw_status = canonical_label t.
Proof. intros H. unfold normalize_status. rewrite H. reflexivity. Qed.

Lemma normalize_unmatched (U : ucd) (raw_status : pystr) :
  first_family (lower U (strip U raw_status)) STATUS_KEYWORDS = None ->
  normalize_status U raw_status =
    if truthy (strip U raw_status) then title U (strip U raw_status)
    else lit "Applied".
Proof. intros H. unfold normalize_status. rewrite H. reflexivity. Qed.

Lemma normalize_blank (U : ucd) (raw_status : pystr) :
  blank U raw_status = true -> normalize_status U raw_status = lit "Applied".
Proof.
  intros H. apply strip_nil_iff in H. unfold normalize_status. rewrite H.
  reflexivity.
Qed.

(** On a text of ASCII characters that no keyword matches, the second
    pass sees the same lower-cased text and title-cases to the same
    result. *)
Lemma normalize_title_ascii (U : ucd) (text : pystr) :
  all_ascii text = true -> strip U text = text -> truthy text = true ->
  first_family (lower U text) STATUS_KEYWORDS = None ->
  normalize_status U (title U text) = title U text.
Proof.
  intros Ha Hs Ht Hf.
  rewrite (@title_is_title_ascii U text Ha).
  pose proof (@title_ascii_all_ascii text Ha false) as Ha'.
  unfold normalize_status.
  rewrite (@strip_title_ascii U text false Ha Hs).
  rewrite (@lower_ascii U _ Ha'), lower_title_ascii, <- (@lower_ascii U _ Ha).
  rewrite Hf, truthy_title_ascii, Ht.
  rewrite (@title_is_title_ascii U _ Ha'). apply title_ascii_idem.
Qed.

(** C1: a status text whose trimmed, lower-cased form contains a keyword
    of the "rejected" family is normalised to "Rejected"; nothing is
    asked of the other families, so their keywords may occur as well. *)
Theorem normalize_status_rejected_first
    (U : ucd) (raw_status keyword : pystr) :
  In keyword rejected_keywords ->
  contains keyword (lower U (strip U raw_status)) = true ->
  normalize_status U raw_status = lit "Rejected".
Proof.
  intros Hin Hc.
  apply (@normalize_matched U raw_status rejected).
  unfold STATUS_KEYWORDS. cbn [first_family].
  replace (any_keyword_in (lower U (strip U raw_status)) rejected_keywords)
    with true; [reflexivity|].
  symmetry. apply any_keyword_in_spec. eauto.
Qed.

Lemma normalize_status_rejected_first_witness :
  In (lit "not selected") rejected_keywords /\
  contains (lit "not selected")
    (lower ucd_excerpt
       (strip ucd_excerpt (lit "  Phone Screen: NOT Selected (offer pool) ")))
    = true /\
  normalize_status ucd_excerpt
    (lit "  Phone Screen: NOT Selected (offer pool) ") = lit "Rejected".
Proof.
  assert (Hin : In (lit "not selected") rejected_keywords)
    by (simpl; tauto).
  split; [exact Hin|]. split; [reflexivity|].
  apply (@normalize_status_rejected_first ucd_excerpt
           (lit "  Phone Screen: NOT Selected (offer pool) ")
           (lit "not selected") Hin).
  reflexivity.
Defined.

(** C4: when no keyword of any family occurs in the trimmed, lower-cased
    input, the result is the trimmed input in title case, or "Applied"
    when the trimmed input is empty, which is the case exactly when the
    input is empty or white space only. *)
Theorem normalize_status_fallback (U : ucd) (raw_status : pystr) :
  no_keyword_occurs (lower U (strip U raw_status)) = true ->
  normalize_status U raw_status =
    match strip U raw_status with
    | [] => lit "Applied"
    | text => title U text
    end
  /\ (strip U raw_status = [] <-> blank U raw_status = true).
Proof.
  intros H. split; [|apply strip_nil_iff].
  apply first_family_None in H. rewrite (normalize_unmatched U _ H).
  destruct (strip U raw_status); reflexivity.
Qed.

Lemma normalize_status_fallback_witness :
  no_keyword_occurs
    (lower ucd_excerpt (strip ucd_excerpt (lit " some custom LABEL  "))) = true
  /\ normalize_status ucd_excerpt (lit " some custom LABEL  ")
     = lit "Some Custom Label".
Proof.
  split; [reflexivity|].
  exact (proj1 (@normalize_status_fallback ucd_excerpt
                  (lit " some custom LABEL  ") eq_refl)).
Defined.

(** The empty and the white-space-only input need no assumption: no
    keyword occurs in an empty text. *)
Lemma normalize_status_blank_input (U : ucd) (raw_status : pystr) :
  blank U raw_status = true ->
  no_keyword_occurs (lower U (strip U raw_status)) = true /\
  normalize_status U raw_status = lit "Applied".
Proof.
  intros H. split; [|apply normalize_blank, H].
  apply strip_nil_iff in H. rewrite H. reflexivity.
Qed.

Example normalize_empty (U : ucd) : normalize_status U (lit "") = lit "Applied".
Proof. reflexivity. Qed.

Example normalize_spaces (U : ucd) :
  normalize_status U (lit "   ") = lit "Applied".
Proof. reflexivity. Qed.

(** The scenarios of the specification. *)
Example normalize_scenarios (U : ucd) :
  normalize_status U (lit "Position Unfilled") = lit "Rejected" /\
  normalize_status U (lit "Interview Scheduled - Phone Screen")
    = lit "Interview" /\
  normalize_status U (lit "Offer Accepted") = lit "Offer" /\
  normalize_status U (lit "Shortlisted / Alternate Pool") = lit "Ranked" /\
  normalize_status U (lit "Some Custom Label") = lit "Some Custom Label" /\
  normalize_status U (lit "screening") = lit "Interview".
Proof. repeat split; vm_compute; reflexivity. Qed.

(** C5: each of the six canonical labels is normalised to itself. *)
Theorem normalize_status_canonical_fixed (U : ucd) :
  Forall (fun x => normalize_status U x = x) canonical_labels.
Proof. repeat constructor; vm_compute; reflexivity. Qed.

(** C9, as stated, fails beyond ASCII: the ligature U+FB01 followed by
    "lled" matches no keyword and is title-cased to "Filled", which the
    second pass maps to "Rejected". *)
Lemma normalize_status_not_idempotent :
  let x := (64257 :: lit "lled")%N in
  normalize_status ucd_excerpt x = lit "Filled" /\
  normalize_status ucd_excerpt (normalize_status ucd_excerpt x)
    = lit "Rejected" /\
  normalize_status ucd_excerpt (normalize_status ucd_excerpt x)
    <> normalize_status ucd_excerpt x.
Proof.
  cbv zeta. split; [vm_compute; reflexivity|].
  split; [vm_compute; reflexivity|].
  vm_compute. discriminate.
Qed.

(** C9, amended: a second pass changes nothing when some keyword occurs
    in the input, or when the trimmed input is made of ASCII characters
    only. *)
Theorem normalize_status_idempotent (U : ucd) (x : pystr) :
  no_keyword_occurs (lower U (strip U x)) = false \/
  all_ascii (strip U x) = true ->
  normalize_status U (normalize_status U x) = normalize_status U x.
Proof.
  intros H.
  destruct (first_family (lower U (strip U x)) STATUS_KEYWORDS) as [t|] eqn:E.
  - rewrite (normalize_matched U x E). apply normalize_canonical_label.
  - assert (Ha : all_ascii (strip U x) = true).
    { destruct H as [H|H]; [|exact H].
      apply first_family_None in E. unfold no_keyword_occurs in H.
      congruence. }
    rewrite (normalize_unmatched U x E).
    destruct (truthy (strip U x)) eqn:Et.
    + apply normalize_title_ascii; auto. apply strip_idem.
    + apply (normalize_canonical_label U applied).
Qed.

Lemma normalize_status_idempotent_witness :
  all_ascii (strip ucd_excerpt (lit "  waiting for o'brien's REPLY ")) = true /\
  normalize_status ucd_excerpt (lit "  waiting for o'brien's REPLY ")
    = lit "Waiting For O'Brien'S Reply" /\
  normalize_status ucd_excerpt
    (normalize_status ucd_excerpt (lit "  waiting for o'brien's REPLY "))
  = normalize_status ucd_excerpt (lit "  waiting for o'brien's REPLY ").
Proof.
  split; [reflexivity|]. split; [reflexivity|].
  apply (@normalize_status_idempotent ucd_excerpt
           (lit "  waiting for o'brien's REPLY ")).
  right. reflexivity.
Defined.

(* ================================================================== *)
(** * The store: invariant and queries *)
(* ================================================================== *)

Lemma same_key_spec (c r : pystr) (x : row) :
  same_key c r x = true <-> has_key c r x.
Proof.
  unfold same_key, has_key. rewrite andb_true_iff, !eqb_eq. tauto.
Qed.

Lemma find_Some_split {A : Type} (f : A -> bool) (l : list A) (x : A) :
  find f l = Some x ->
  exists pre post,
    l = pre ++ x :: post /\ f x = true /\
    forall y, In y pre -> f y = false.
Proof.
  induction l as [|a l IH]; simpl; [discriminate|].
  destruct (f a) eqn:E.
  - intros H; inversion H; subst. exists [], l. simpl. tauto.
  - intros H. destruct (IH H) as [pre [post [-> [Hx Hpre]]]].
    exists (a :: pre), post. simpl. repeat split; auto.
    intros y [<- | Hy]; auto.
Qed.

Lemma select_id_None (conn : db) (c r : pystr) :
  select_id conn c r = None <->
  forall x, In x (rows conn) -> ~ has_key c r x.
Proof.
  unfold select_id. split.
  - intros H x Hin Hk. destruct (find _ _) eqn:E; [discriminate|].
    apply same_key_spec in Hk.
    pose proof (find_none _ _ E x Hin). congruence.
  - intros H. destruct (find _ _) as [x|] eqn:E; [|reflexivity].
    apply find_some in E. destruct E as [Hin Hk].
    apply same_key_spec in Hk. exfalso. exact (H x Hin Hk).
Qed.

(** The row [fetchone()] yields is the first of the scan with the key. *)
Lemma select_id_Some (conn : db) (c r : pystr) (i : Z) :
  select_id conn c r = Some i ->
  exists pre y post,
    rows conn = pre ++ y :: post /\ id y = i /\ has_key c r y /\
    forall z, In z pre -> ~ has_key c r z.
Proof.
  unfold select_id. destruct (find _ _) as [y|] eqn:E; [|discriminate].
  intros H; inversion H; subst.
  destruct (find_Some_split _ _ E) as [pre [post [Hl [Hy Hpre]]]].
  exists pre, y, post.
  split; [exact Hl|]. split; [reflexivity|].
  split; [apply same_key_spec, Hy|].
  intros z Hz Hk. apply same_key_spec in Hk. rewrite (Hpre z Hz) in Hk.
  discriminate.
Qed.

Lemma max_rowid_ge (rs : list row) (x : row) :
  In x rs -> (id x <= max_rowid rs)%Z.
Proof.
  induction rs as [|a rs IH]; simpl; [tauto|].
  intros [<- | H]; [|specialize (IH H)]; lia.
Qed.

Lemma next_rowid_fresh (conn : db) (x : row) :
  In x (rows conn) -> (id x < next_rowid conn)%Z.
Proof.
  intros H. apply max_rowid_ge in H. unfold next_rowid. lia.
Qed.

Lemma next_rowid_not_in (conn : db) :
  ~ In (next_rowid conn) (map id (rows conn)).
Proof.
  intros H. apply in_map_iff in H. destruct H as [x [E Hin]].
  apply next_rowid_fresh in Hin. lia.
Qed.

Lemma sorted_NoDup (l : list Z) : StronglySorted Z.lt l -> NoDup l.
Proof.
  induction 1 as [|a l Hs IH Hall]; constructor; auto.
  intros Hin. rewrite Forall_forall in Hall. specialize (Hall a Hin). lia.
Qed.

Lemma sorted_snoc (l : list Z) (b : Z) :
  StronglySorted Z.lt l -> (forall a, In a l -> (a < b)%Z) ->
  StronglySorted Z.lt (l ++ [b]).
Proof.
  induction 1 as [|a l Hs IH Hall]; intros Hb; simpl.
  - repeat constructor.
  - constructor.
    + apply IH. intros; apply Hb; simpl; auto.
    + apply Forall_app. split; [exact Hall|].
      constructor; [apply Hb; simpl; auto | constructor].
Qed.

Lemma sorted_filter (f : row -> bool) (rs : list row) :
  StronglySorted Z.lt (map id rs) ->
  StronglySorted Z.lt (map id (filter f rs)).
Proof.
  induction rs as [|a rs IH]; simpl; auto.
  intros H. inversion H as [|? ? Hs Hall]; subst.
  destruct (f a); simpl; auto.
  constructor; auto.
  rewrite Forall_forall in *. intros i Hi. apply Hall.
  apply in_map_iff in Hi. destruct Hi as [x [<- Hx]].
  apply filter_In in Hx. apply in_map. tauto.
Qed.

Lemma update_row_ids (conn : db) (i : Z) (a : application) :
  map id (rows (update_row conn i a)) = map id (rows conn).
Proof.
  unfold update_row; simpl. rewrite map_map. apply map_ext.
  intros x. destruct (Z.eqb (id x) i); reflexivity.
Qed.

(** ** The invariant holds initially and every statement keeps it. *)

Lemma empty_db_ok : db_ok empty_db.
Proof. constructor. Qed.

Lemma insert_row_ok (conn : db) (a : application) :
  db_ok conn -> db_ok (insert_row conn a).
Proof.
  unfold db_ok, insert_row; simpl. intros H. rewrite map_app. simpl.
  apply sorted_snoc; auto.
  intros i Hi. apply in_map_iff in Hi. destruct Hi as [x [<- Hx]].
  apply next_rowid_fresh, Hx.
Qed.

Lemma update_row_ok (conn : db) (i : Z) (a : application) :
  db_ok conn -> db_ok (update_row conn i a).
Proof. unfold db_ok. rewrite update_row_ids. auto. Qed.

Lemma delete_row_ok (conn : db) (i : Z) :
  db_ok conn -> db_ok (delete_row conn i).
Proof. unfold db_ok, delete_row; simpl. apply sorted_filter. Qed.

Lemma upsert_application_ok (U : ucd) (conn : db) (dt : data) :
  db_ok conn -> db_ok (upsert_application U conn dt).
Proof.
  intros H. unfold upsert_application.
  destruct (select_id _ _ _); [apply update_row_ok | apply insert_row_ok];
    exact H.
Qed.

Lemma add_application_ok (U : ucd) today m (conn : db) (f : form) :
  db_ok conn -> db_ok (add_application U today m conn f).
Proof. destruct m; simpl; auto. apply insert_row_ok. Qed.

Lemma reachable_ok (U : ucd) (conn : db) : reachable U conn -> db_ok conn.
Proof.
  induction 1;
    auto using empty_db_ok, insert_row_ok, update_row_ok, delete_row_ok,
      upsert_application_ok.
Qed.

(** With distinct rowids, UPDATE ... WHERE id = ? rewrites one row. *)
Lemma update_row_split (conn : db) (pre post : list row) (y : row)
    (a : application) :
  db_ok conn -> rows conn = pre ++ y :: post ->
  rows (update_row conn (id y) a)
    = pre ++ {| id := id y; cols := a |} :: post.
Proof.
  intros Hok Hr. unfold update_row; simpl. rewrite Hr.
  apply sorted_NoDup in Hok. rewrite Hr, map_app in Hok. simpl in Hok.
  pose proof (NoDup_remove_2 _ _ _ Hok) as Hnot.
  assert (Hfix : forall l, (forall z, In z l -> id z <> id y) ->
            map (fun x => if Z.eqb (id x) (id y)
                          then {| id := id x; cols := a |} else x) l = l).
  { induction l as [|z l IH]; simpl; auto. intros Hl.
    rewrite IH by (intros; apply Hl; auto).
    destruct (Z.eqb_spec (id z) (id y)) as [E|E]; [|reflexivity].
    exfalso. apply (Hl z); auto. }
  rewrite map_app. simpl. rewrite Z.eqb_refl.
  rewrite !Hfix; [reflexivity | |].
  - intros z Hz E. apply Hnot, in_or_app. right. rewrite <- E.
    apply in_map, Hz.
  - intros z Hz E. apply Hnot, in_or_app. left. rewrite <- E.
    apply in_map, Hz.
Qed.

(** After the UPDATE, the row under the key is the new tuple. *)
Lemma select_by_id_update (conn : db) (i : Z) (a : application) :
  In i (map id (rows conn)) ->
  select_by_id (update_row conn i a) i = Some {| id := i; cols := a |}.
Proof.
  unfold select_by_id, update_row; simpl.
  induction (rows conn) as [|x l IH]; simpl; [tauto|].
  intros [E | H].
  - subst i. rewrite Z.eqb_refl. simpl. rewrite Z.eqb_refl. reflexivity.
  - destruct (Z.eqb_spec (id x) i) as [E|E].
    + simpl. subst i. rewrite Z.eqb_refl. reflexivity.
    + apply Z.eqb_neq in E. rewrite E. auto.
Qed.

(* ================================================================== *)
(** * The reconciler: properties *)
(* ================================================================== *)

Lemma sample_store_ok : db_ok Sample.store.
Proof. repeat constructor. Qed.

Lemma in_rows_ids (conn : db) (x : row) :
  In x (rows conn) -> In (id x) (map id (rows conn)).
Proof. apply in_map. Qed.

(** C2: a candidate whose (company, role) no record carries adds exactly
    one record, under a fresh id; a candidate whose (company, role) some
    record carries adds none: the record count and the ids stay as they
    were, and a record with that key now holds the candidate under its
    old id. *)
Theorem upsert_application_insert_or_update
    (U : ucd) (conn : db) (dt : data) :
  ((forall x, In x (rows conn) -> ~ has_key (company dt) (role dt) x) ->
     count_rows (upsert_application U conn dt) = S (count_rows conn) /\
     exists r,
       rows (upsert_application U conn dt) = rows conn ++ [r] /\
       cols r = normalized_of U dt /\
       ~ In (id r) (map id (rows conn)))
  /\
  ((exists x, In x (rows conn) /\ has_key (company dt) (role dt) x) ->
     count_rows (upsert_application U conn dt) = count_rows conn /\
     map id (rows (upsert_application U conn dt)) = map id (rows conn) /\
     exists y,
       In y (rows conn) /\ has_key (company dt) (role dt) y /\
       select_by_id (upsert_application U conn dt) (id y)
         = Some {| id := id y; cols := normalized_of U dt |}).
Proof.
  unfold upsert_application. cbn [normalized_of set_status company role].
  split.
  - intros Hno. apply select_id_None in Hno. rewrite Hno.
    unfold insert_row, count_rows; simpl. split.
    + rewrite length_app. simpl. lia.
    + eexists. split; [reflexivity|]. split; [reflexivity|].
      apply next_rowid_not_in.
  - intros [x [Hin Hk]].
    destruct (select_id conn (company dt) (role dt)) as [i|] eqn:E.
    + destruct (select_id_Some _ _ _ E)
        as [pre [y [post [Hr [Hi [Hy _]]]]]].
      assert (Hy_in : In y (rows conn))
        by (rewrite Hr; apply in_or_app; right; left; reflexivity).
      split; [|split].
      * unfold count_rows. rewrite <- (length_map id), update_row_ids.
        apply length_map.
      * apply update_row_ids.
      * exists y. split; [exact Hy_in|]. split; [exact Hy|].
        subst i. apply select_by_id_update, in_rows_ids, Hy_in.
    + exfalso. rewrite select_id_None in E. exact (E x Hin Hk).
Qed.

Lemma upsert_application_insert_or_update_witness :
  count_rows (upsert_application ucd_excerpt Sample.store Sample.scraped_quark)
    = 4%nat /\
  count_rows (upsert_application ucd_excerpt Sample.store Sample.scraped_acme)
    = 3%nat.
Proof.
  split.
  - refine (proj1 (proj1 (upsert_application_insert_or_update ucd_excerpt
                            Sample.store Sample.scraped_quark) _)).
    intros x Hin [Hc _]. simpl in Hin.
    destruct Hin as [<- | [<- | [<- | []]]]; discriminate Hc.
  - refine (proj1 (proj2 (upsert_application_insert_or_update ucd_excerpt
                            Sample.store Sample.scraped_acme) _)).
    exists {| id := 4; cols := Sample.acme_again |}.
    split; [simpl; tauto | split; reflexivity].
Defined.

(** C3: when the lookup finds a record, the row under that id afterwards
    holds the candidate's nine values, the status normalised, and nothing
    of the old row; so empty notes in the candidate leave empty notes in
    the record. *)
Theorem upsert_application_overwrites
    (U : ucd) (conn : db) (dt : data) (i : Z) :
  select_id conn (company dt) (role dt) = Some i ->
  select_by_id (upsert_application U conn dt) i =
    Some {| id := i;
            cols := {| company := company dt;
                       role := role dt;
                       location := location dt;
                       status :=
                         normalize_status U
                           (match status dt with
                            | Some s => s
                            | None => lit "Applied"
                            end);
                       applied_date := applied_date dt;
                       follow_up_date := follow_up_date dt;
                       source := source dt;
                       notes := notes dt;
                       url := url dt |} |}
  /\ (notes dt = [] ->
      forall y, select_by_id (upsert_application U conn dt) i = Some y ->
                notes (cols y) = []).
Proof.
  intros E.
  assert (H : select_by_id (upsert_application U conn dt) i
              = Some {| id := i; cols := normalized_of U dt |}).
  { unfold upsert_application. cbn [normalized_of set_status company role].
    rewrite E.
    destruct (select_id_Some _ _ _ E) as [pre [y [post [Hr [Hi _]]]]].
    apply select_by_id_update. subst i. apply in_rows_ids. rewrite Hr.
    apply in_or_app; right; left; reflexivity. }
  split; [exact H|].
  intros Hn y Hy. rewrite H in Hy. inversion Hy; subst. exact Hn.
Qed.

Lemma upsert_application_overwrites_witness :
  select_id Sample.store (lit "Acme") (lit "Intern") = Some 1%Z /\
  select_by_id
    (upsert_application ucd_excerpt Sample.store Sample.scraped_acme) 1
  = Some {| id := 1;
            cols := {| company := lit "Acme"; role := lit "Intern";
                       location := lit ""; status := lit "Rejected";
                       applied_date := lit "2024-03-01";
                       follow_up_date := None; source := lit "Crawler";
                       notes := lit ""; url := lit "" |} |}.
Proof.
  split; [reflexivity|].
  exact (proj1 (@upsert_application_overwrites ucd_excerpt Sample.store
                  Sample.scraped_acme 1%Z eq_refl)).
Defined.

(** C10: on a store with distinct rowids the upsert either rewrites the
    first row of the scan that carries the candidate's key and leaves
    every row before and after it as it was, later rows of the same key
    included, or, when no row carries the key, keeps all rows and appends
    one. *)
Theorem upsert_application_frame (U : ucd) (conn : db) (dt : data) :
  db_ok conn ->
  (exists pre y post,
     rows conn = pre ++ y :: post /\
     has_key (company dt) (role dt) y /\
     (forall z, In z pre -> ~ has_key (company dt) (role dt) z) /\
     rows (upsert_application U conn dt)
       = pre ++ {| id := id y; cols := normalized_of U dt |} :: post)
  \/
  ((forall x, In x (rows conn) -> ~ has_key (company dt) (role dt) x) /\
   exists r, rows (upsert_application U conn dt) = rows conn ++ [r]).
Proof.
  intros Hok. unfold upsert_application.
  cbn [normalized_of set_status company role].
  destruct (select_id conn (company dt) (role dt)) as [i|] eqn:E.
  - left. destruct (select_id_Some _ _ _ E)
      as [pre [y [post [Hr [Hi [Hy Hpre]]]]]].
    exists pre, y, post. repeat (split; [assumption|]).
    subst i. apply update_row_split; assumption.
  - right. split; [apply select_id_None, E|].
    eexists. reflexivity.
Qed.

Lemma upsert_application_frame_witness :
  db_ok Sample.store /\
  ((exists pre y post,
      rows Sample.store = pre ++ y :: post /\
      has_key (lit "Acme") (lit "Intern") y /\
      (forall z, In z pre -> ~ has_key (lit "Acme") (lit "Intern") z) /\
      rows (upsert_application ucd_excerpt Sample.store Sample.scraped_acme)
        = pre ++ {| id := id y;
                    cols := normalized_of ucd_excerpt Sample.scraped_acme |}
              :: post)
   \/
   ((forall x, In x (rows Sample.store) ->
               ~ has_key (lit "Acme") (lit "Intern") x) /\
    exists r,
      rows (upsert_application ucd_excerpt Sample.store Sample.scraped_acme)
        = rows Sample.store ++ [r])).
Proof.
  split; [exact sample_store_ok|].
  exact (@upsert_application_frame ucd_excerpt Sample.store
           Sample.scraped_acme sample_store_ok).
Defined.

(** Of the two (Acme, Intern) rows of the sample, the one with the
    smaller rowid takes the scraped values; row 4 keeps its own. *)
Example upsert_sample_rows :
  rows (upsert_application ucd_excerpt Sample.store Sample.scraped_acme)
  = [ {| id := 1; cols := normalized_of ucd_excerpt Sample.scraped_acme |};
      {| id := 2; cols := Sample.volt_coop |};
      {| id := 4; cols := Sample.acme_again |} ].
Proof. vm_compute. reflexivity. Qed.

(** C7: the manual-add route inserts without a lookup: when a record
    already carries the submitted (company, role), the store afterwards
    holds that record unchanged and a second one with the same key under
    another id. *)
Theorem add_application_duplicates
    (U : ucd) (today : pystr) (conn : db) (f : form) (x : row) :
  In x (rows conn) ->
  has_key (strip U (form_get f "company" []))
          (strip U (form_get f "role" [])) x ->
  exists r,
    rows (add_application U today POST conn f) = rows conn ++ [r] /\
    has_key (company (cols x)) (role (cols x)) r /\
    id r <> id x /\
    count_rows (add_application U today POST conn f) = S (count_rows conn).
Proof.
  intros Hin [Hc Hr]. eexists. split; [reflexivity|]. simpl.
  split; [split; simpl; congruence|]. split.
  - apply next_rowid_fresh in Hin. lia.
  - unfold count_rows. simpl. rewrite length_app. simpl. lia.
Qed.

Lemma add_application_duplicates_witness :
  In {| id := 1; cols := Sample.acme_intern |} (rows Sample.store) /\
  exists r,
    rows (add_application ucd_excerpt (lit "2024-03-02") POST Sample.store
            Sample.acme_form) = rows Sample.store ++ [r] /\
    has_key (lit "Acme") (lit "Intern") r /\
    id r <> 1%Z /\
    count_rows (add_application ucd_excerpt (lit "2024-03-02") POST
                  Sample.store Sample.acme_form) = 4%nat.
Proof.
  assert (Hin : In {| id := 1; cols := Sample.acme_intern |}
                   (rows Sample.store)) by (simpl; tauto).
  split; [exact Hin|].
  apply (@add_application_duplicates ucd_excerpt (lit "2024-03-02")
           Sample.store Sample.acme_form _ Hin).
  split; reflexivity.
Defined.

(* ================================================================== *)
(** * The crawler's row loop: properties *)
(* ================================================================== *)

Section CrawlFacts.

Variable U : ucd.
Variable args : crawl_args.
Variable today : pystr.

Lemma truthy_is_empty (s : pystr) : truthy s = negb (is_empty s).
Proof. destruct s; reflexivity. Qed.

(** The guard of the loop is the presence check. *)
Lemma crawl_row_cases (st : db * Z) (el : element) :
  crawl_row U args today st el =
    if missing_required U args el then st
    else (upsert_application U (fst st) (scraped U args today el),
          (snd st + 1)%Z).
Proof.
  unfold crawl_row, missing_required, scraped.
  rewrite !truthy_is_empty.
  destruct (is_empty (extract_text U el (company_selector args)));
  destruct (is_empty (extract_text U el (role_selector args)));
  destruct (is_empty (extract_text U el (status_selector args)));
  reflexivity.
Qed.

Lemma crawl_fold (page_rows : list element) (st : db * Z) :
  let kept := filter (fun el => negb (missing_required U args el)) page_rows in
  fold_left (crawl_row U args today) page_rows st =
    (fold_left (upsert_application U) (map (scraped U args today) kept)
       (fst st),
     (snd st + Z.of_nat (length kept))%Z).
Proof.
  revert st. induction page_rows as [|el l IH]; intros [conn imported].
  - simpl. f_equal. lia.
  - cbn [fold_left filter]. rewrite IH, crawl_row_cases.
    destruct (missing_required U args el); simpl.
    + reflexivity.
    + f_equal. lia.
Qed.

End CrawlFacts.

(** C6: a row in which company, role or raw status is empty leaves the
    store and the counter as they were; the loop ends with the store
    obtained by upserting, in page order, the rows that passed the check
    and no other, and with their number as the count. *)
Theorem crawl_and_sync_counts_passed_rows
    (U : ucd) (args : crawl_args) (today : pystr) (conn : db)
    (page_rows : list element) :
  (forall st el,
     crawl_row U args today st el =
       if missing_required U args el then st
       else (upsert_application U (fst st) (scraped U args today el),
             (snd st + 1)%Z))
  /\
  let passed :=
    filter (fun el => negb (missing_required U args el)) page_rows in
  crawl_and_sync U args today conn page_rows =
    (fold_left (upsert_application U) (map (scraped U args today) passed) conn,
     Z.of_nat (length passed)).
Proof.
  split; [apply crawl_row_cases|].
  unfold crawl_and_sync. rewrite crawl_fold. reflexivity.
Qed.

Example crawl_sample_page :
  snd (crawl_and_sync ucd_excerpt Sample.args (lit "2024-03-01")
         Sample.store Sample.page) = 1%Z /\
  map id (rows (fst (crawl_and_sync ucd_excerpt Sample.args (lit "2024-03-01")
                       Sample.store Sample.page))) = [1; 2; 4]%Z.
Proof. split; vm_compute; reflexivity. Qed.

(* ================================================================== *)
(** * The stage breakdown: properties *)
(* ================================================================== *)

Section Breakdown.

Local Open Scope nat_scope.

Lemma insert_desc_perm g l : Permutation (insert_desc g l) (g :: l).
Proof.
  induction l as [|h t IH]; simpl; auto.
  destruct (snd h <? snd g); auto.
  rewrite IH. apply perm_swap.
Qed.

Lemma order_by_count_desc_perm l : Permutation (order_by_count_desc l) l.
Proof.
  induction l as [|g l IH]; simpl; auto.
  rewrite insert_desc_perm. auto.
Qed.

Lemma count_desc_trans : Relations_1.Transitive count_desc.
Proof. intros a b c. unfold count_desc. lia. Qed.

Lemma insert_desc_sorted g l :
  StronglySorted count_desc l -> StronglySorted count_desc (insert_desc g l).
Proof.
  induction 1 as [|h t Hs IH Hall]; simpl.
  - repeat constructor.
  - destruct (Nat.ltb_spec (snd h) (snd g)) as [Hlt|Hge].
    + constructor; [constructor; assumption|].
      constructor; [unfold count_desc; lia|].
      eapply Forall_impl; [|exact Hall].
      intros a Ha. unfold count_desc in *. lia.
    + constructor; [exact IH|].
      apply (Permutation_Forall (Permutation_sym (insert_desc_perm g t))).
      constructor; [exact Hge | exact Hall].
Qed.

Lemma order_by_count_desc_sorted l :
  StronglySorted count_desc (order_by_count_desc l).
Proof.
  induction l as [|g l IH]; simpl; [constructor|].
  apply insert_desc_sorted, IH.
Qed.

Lemma count_occ_filter (l : list pystr) (s : pystr) :
  count_occ PyStr.eq_dec l s
  = length (filter (fun x => PyStr.eqb x s) l).
Proof.
  induction l as [|a l IH]; simpl; auto.
  destruct (PyStr.eq_dec a s) as [E|E].
  - subst. rewrite eqb_refl. simpl. congruence.
  - destruct (PyStr.eqb a s) eqn:Eb; [apply eqb_eq in Eb; contradiction|].
    exact IH.
Qed.

Lemma filter_map_length {A B : Type} (f : A -> B) (p : B -> bool) (l : list A) :
  length (filter p (map f l)) = length (filter (fun x => p (f x)) l).
Proof.
  induction l as [|a l IH]; simpl; auto.
  destruct (p (f a)); simpl; congruence.
Qed.

(** Over a duplicate-free list of keys that covers [l], the occurrence
    counts add up to the length of [l]. *)
Lemma indicator_sum (a : pystr) (ks : list pystr) :
  NoDup ks -> In a ks ->
  list_sum (map (fun k => if PyStr.eq_dec a k then 1 else 0) ks) = 1.
Proof.
  induction 1 as [|k ks Hk Hnd IH]; simpl; [tauto|].
  intros [E | Hin].
  - subst k. destruct (PyStr.eq_dec a a); [|congruence].
    assert (H0 : list_sum (map (fun k => if PyStr.eq_dec a k then 1 else 0) ks)
                 = 0).
    { clear IH Hnd. induction ks as [|k ks IH]; simpl; auto.
      destruct (PyStr.eq_dec a k) as [E|E].
      - subst. exfalso. apply Hk. left. reflexivity.
      - apply IH. intros H. apply Hk. right. exact H. }
    rewrite H0. reflexivity.
  - destruct (PyStr.eq_dec a k) as [E|E]; [subst; contradiction|].
    simpl. auto.
Qed.

Lemma count_occ_sum (l ks : list pystr) :
  NoDup ks -> (forall x, In x l -> In x ks) ->
  list_sum (map (count_occ PyStr.eq_dec l) ks) = length l.
Proof.
  intros Hnd. induction l as [|a l IH]; intros Hcov.
  - clear. induction ks; simpl; auto.
  - assert (E : forall k, count_occ PyStr.eq_dec (a :: l) k
                  = (if PyStr.eq_dec a k then 1 else 0)
                    + count_occ PyStr.eq_dec l k).
    { intros k. simpl. destruct (PyStr.eq_dec a k); reflexivity. }
    rewrite (map_ext _ _ E).
    assert (S : forall (f g : pystr -> nat) (xs : list pystr),
              list_sum (map (fun k => f k + g k) xs)
              = list_sum (map f xs) + list_sum (map g xs)).
    { intros f g xs. induction xs as [|x xs IHx]; simpl; auto.
      rewrite IHx. lia. }
    rewrite S, indicator_sum, IH; simpl; auto.
    + intros x Hx. apply Hcov. right. exact Hx.
    + apply Hcov. left. reflexivity.
Qed.

Lemma group_by_status_keys (rs : list row) :
  map fst (group_by_status rs)
  = nodup PyStr.eq_dec (map (fun x => status (cols x)) rs).
Proof.
  unfold group_by_status. rewrite map_map. simpl. apply map_id.
Qed.

Lemma group_by_status_counts (rs : list row) :
  map snd (group_by_status rs)
  = map (count_occ PyStr.eq_dec (map (fun x => status (cols x)) rs))
        (nodup PyStr.eq_dec (map (fun x => status (cols x)) rs)).
Proof. unfold group_by_status. rewrite map_map. reflexivity. Qed.

End Breakdown.

(** C8: the breakdown lists every status that some record carries, each
    once, with the number of records that carry it; the counts add up to
    the number of records and never increase along the list. *)
Theorem fetch_stage_breakdown_exact (conn : db) :
  NoDup (map fst (fetch_stage_breakdown conn)) /\
  (forall s, In s (map fst (fetch_stage_breakdown conn)) <->
             exists x, In x (rows conn) /\ status (cols x) = s) /\
  (forall s n, In (s, n) (fetch_stage_breakdown conn) ->
               n = records_with_status conn s) /\
  list_sum (map snd (fetch_stage_breakdown conn)) = count_rows conn /\
  StronglySorted count_desc (fetch_stage_breakdown conn).
Proof.
  unfold fetch_stage_breakdown.
  pose proof (order_by_count_desc_perm (group_by_status (rows conn))) as P.
  set (statuses := map (fun x => status (cols x)) (rows conn)).
  assert (Hkeys : Permutation
            (map fst (order_by_count_desc (group_by_status (rows conn))))
            (nodup PyStr.eq_dec statuses)).
  { unfold statuses. rewrite <- group_by_status_keys.
    apply Permutation_map, P. }
  split; [|split; [|split; [|split]]].
  - apply (Permutation_NoDup (Permutation_sym Hkeys)), NoDup_nodup.
  - intros s. split.
    + intros H. apply (Permutation_in _ Hkeys), nodup_In in H.
      apply in_map_iff in H. destruct H as [x [E Hx]]. eauto.
    + intros [x [Hx E]].
      apply (Permutation_in _ (Permutation_sym Hkeys)), nodup_In.
      subst s. apply (in_map (fun x => status (cols x))), Hx.
  - intros s n H. apply (Permutation_in _ P) in H.
    unfold group_by_status in H. apply in_map_iff in H.
    destruct H as [k [E _]]. inversion E; subst.
    unfold records_with_status. rewrite count_occ_filter.
    apply filter_map_length.
  - rewrite (Permutation_list_sum (Permutation_map snd P)).
    rewrite group_by_status_counts, count_occ_sum.
    + unfold count_rows. apply length_map.
    + apply NoDup_nodup.
    + intros x Hx. apply nodup_In, Hx.
  - apply order_by_count_desc_sorted.
Qed.

Example breakdown_sample :
  fetch_stage_breakdown Sample.store
  = [ (lit "Applied", 2%nat); (lit "Interview", 1%nat) ].
Proof. vm_compute. reflexivity. Qed.

(* ================================================================== *)
(** * The normaliser: further properties *)
(* ================================================================== *)

Section StripMore.

Variable U : ucd.

Lemma lstrip_blank_app (pre s : pystr) :
  blank U pre = true -> lstrip U (pre ++ s) = lstrip U s.
Proof.
  induction pre as [|c pre IH]; simpl; auto.
  destruct (is_space U c); simpl; [exact IH | discriminate].
Qed.

Lemma rstrip_app_blank (s post : pystr) :
  blank U post = true -> rstrip U (s ++ post) = rstrip U s.
Proof.
  intros H. induction s as [|c s IH]; simpl.
  - apply rstrip_nil_iff, H.
  - rewrite IH. reflexivity.
Qed.

Lemma lstrip_app_nonblank (s post : pystr) :
  blank U s = false -> lstrip U (s ++ post) = lstrip U s ++ post.
Proof.
  induction s as [|c s IH]; simpl; [discriminate|].
  destruct (is_space U c); simpl; [exact IH | reflexivity].
Qed.

Lemma strip_pad (pre x post : pystr) :
  blank U pre = true -> blank U post = true ->
  strip U (pre ++ x ++ post) = strip U x.
Proof.
  intros Hpre Hpost. unfold strip. rewrite lstrip_blank_app by exact Hpre.
  destruct (blank U x) eqn:Ex.
  - assert (Hb : blank U (x ++ post) = true)
      by (rewrite blank_app, Ex, Hpost; reflexivity).
    apply lstrip_nil_iff in Hb. apply lstrip_nil_iff in Ex.
    rewrite Hb, Ex. reflexivity.
  - rewrite lstrip_app_nonblank by exact Ex.
    apply rstrip_app_blank, Hpost.
Qed.

Lemma all_ascii_lstrip (s : pystr) :
  all_ascii s = true -> all_ascii (lstrip U s) = true.
Proof.
  induction s as [|c s IH]; simpl; auto.
  intros H. destruct (is_space U c); [|exact H].
  apply andb_true_iff in H. apply IH, H.
Qed.

Lemma all_ascii_rstrip (s : pystr) :
  all_ascii s = true -> all_ascii (rstrip U s) = true.
Proof.
  induction s as [|c s IH]; simpl; auto.
  rewrite andb_true_iff. intros [Hc Hs]. specialize (IH Hs).
  destruct (rstrip U s) as [|x r'].
  - destruct (is_space U c); simpl; [reflexivity | rewrite Hc; reflexivity].
  - change (all_ascii (c :: x :: r')) with (is_ascii c && all_ascii (x :: r')).
    rewrite Hc, IH. reflexivity.
Qed.

Lemma all_ascii_strip (s : pystr) :
  all_ascii s = true -> all_ascii (strip U s) = true.
Proof. intros H. apply all_ascii_rstrip, all_ascii_lstrip, H. Qed.

Lemma all_ascii_map_lower (s : pystr) :
  all_ascii s = true -> all_ascii (map ascii_lower s) = true.
Proof.
  induction s as [|c s IH]; simpl; auto.
  rewrite !andb_true_iff. intros [Hc Hs].
  split; [apply is_ascii_lower, Hc | apply IH, Hs].
Qed.

Lemma is_space_lower (c : codepoint) :
  is_ascii c = true -> is_space U (ascii_lower c) = is_space U c.
Proof. intros H. exact (@is_space_title_char U c true H). Qed.

Lemma lstrip_map_lower (s : pystr) :
  all_ascii s = true ->
  lstrip U (map ascii_lower s) = map ascii_lower (lstrip U s).
Proof.
  induction s as [|c s IH]; simpl; auto.
  rewrite andb_true_iff. intros [Hc Hs].
  rewrite is_space_lower by exact Hc.
  destruct (is_space U c); [apply IH, Hs | reflexivity].
Qed.

Lemma rstrip_map_lower (s : pystr) :
  all_ascii s = true ->
  rstrip U (map ascii_lower s) = map ascii_lower (rstrip U s).
Proof.
  induction s as [|c s IH]; simpl; auto.
  rewrite andb_true_iff. intros [Hc Hs].
  rewrite IH by exact Hs.
  destruct (rstrip U s) as [|x r']; simpl; [|reflexivity].
  rewrite is_space_lower by exact Hc.
  destruct (is_space U c); reflexivity.
Qed.

Lemma strip_map_lower (s : pystr) :
  all_ascii s = true ->
  strip U (map ascii_lower s) = map ascii_lower (strip U s).
Proof.
  intros H. unfold strip. rewrite lstrip_map_lower by exact H.
  apply rstrip_map_lower, all_ascii_lstrip, H.
Qed.

End StripMore.

Lemma upper_lower (c : codepoint) : ascii_upper (ascii_lower c) = ascii_upper c.
Proof. ascii_cases. Qed.

Lemma title_ascii_map_lower (s : pystr) (p : bool) :
  title_ascii p (map ascii_lower s) = title_ascii p s.
Proof.
  revert p. induction s as [|c s IH]; intros p; simpl; auto.
  rewrite cased_lower, IH.
  destruct p; [rewrite lower_lower | rewrite upper_lower]; reflexivity.
Qed.

Lemma map_lower_idem (s : pystr) :
  map ascii_lower (map ascii_lower s) = map ascii_lower s.
Proof.
  rewrite map_map. apply map_ext. intros c. apply lower_lower.
Qed.

(** Lower-casing an ASCII input beforehand changes nothing. *)
Lemma normalize_map_lower (U : ucd) (x : pystr) :
  all_ascii x = true ->
  normalize_status U (map ascii_lower x) = normalize_status U x.
Proof.
  intros Hx. unfold normalize_status.
  pose proof (all_ascii_strip U _ Hx) as Ht.
  pose proof (all_ascii_map_lower _ Ht) as Hl.
  rewrite (strip_map_lower U _ Hx).
  assert (E1 : lower U (map ascii_lower (strip U x)) = lower U (strip U x)).
  { rewrite (@lower_ascii U _ Hl), (@lower_ascii U _ Ht).
    apply map_lower_idem. }
  assert (E2 : title U (map ascii_lower (strip U x)) = title U (strip U x)).
  { rewrite (@title_is_title_ascii U _ Hl), (@title_is_title_ascii U _ Ht).
    apply title_ascii_map_lower. }
  rewrite E1, E2. destruct (strip U x); reflexivity.
Qed.

Lemma first_family_app (lowered : pystr)
    (earlier later : list (target * list pystr)) (t : target)
    (keywords : list pystr) :
  (forall it, In it earlier -> any_keyword_in lowered (snd it) = false) ->
  any_keyword_in lowered keywords = true ->
  first_family lowered (earlier ++ (t, keywords) :: later) = Some t.
Proof.
  intros Hearlier Hk. induction earlier as [|[t' kws'] earlier IH]; simpl.
  - rewrite Hk. reflexivity.
  - pose proof (Hearlier (t', kws') (or_introl eq_refl)) as H0.
    simpl in H0. rewrite H0.
    apply IH. intros it Hit. apply Hearlier. right. exact Hit.
Qed.

Lemma title_nonempty (U : ucd) (s : pystr) :
  (forall c, u_title U c <> []) -> s <> [] -> title U s <> [].
Proof.
  intros Hu Hs. destruct s as [|c r]; [congruence|].
  unfold title. simpl. unfold to_title_full.
  destruct (is_ascii c); [discriminate|].
  specialize (Hu c). destruct (u_title U c); [congruence | discriminate].
Qed.

Lemma canonical_label_in (t : target) : In (canonical_label t) canonical_labels.
Proof. destruct t; simpl; tauto. Qed.

(** X1: white space around the raw status plays no part: padding the
    input with blank text on either side gives the same result. *)
Theorem normalize_status_ignores_padding (U : ucd) (pre x post : pystr) :
  blank U pre = true -> blank U post = true ->
  normalize_status U (pre ++ x ++ post) = normalize_status U x.
Proof.
  intros Hpre Hpost. unfold normalize_status.
  rewrite (strip_pad U pre x post Hpre Hpost). reflexivity.
Qed.

Lemma normalize_status_ignores_padding_witness :
  blank ucd_excerpt [9; 160; 32]%N = true /\
  blank ucd_excerpt [13; 10]%N = true /\
  normalize_status ucd_excerpt
    ([9; 160; 32]%N ++ lit "final Round" ++ [13; 10]%N)
  = normalize_status ucd_excerpt (lit "final Round").
Proof.
  split; [reflexivity|]. split; [reflexivity|].
  apply (@normalize_status_ignores_padding ucd_excerpt
           [9; 160; 32]%N (lit "final Round") [13; 10]%N);
    reflexivity.
Defined.

(** X2: on ASCII input the result does not depend on letter case: two
    inputs that agree up to the case of their letters are normalised to
    the same string, in the keyword branch and in the title-case branch
    alike. *)
Theorem normalize_status_case_insensitive (U : ucd) (x y : pystr) :
  all_ascii x = true -> all_ascii y = true ->
  map ascii_lower x = map ascii_lower y ->
  normalize_status U x = normalize_status U y.
Proof.
  intros Hx Hy E.
  rewrite <- (normalize_map_lower U x Hx), <- (normalize_map_lower U y Hy), E.
  reflexivity.
Qed.

Lemma normalize_status_case_insensitive_witness :
  all_ascii (lit "wAITING on TEAM") = true /\
  all_ascii (lit "Waiting On team") = true /\
  map ascii_lower (lit "wAITING on TEAM")
    = map ascii_lower (lit "Waiting On team") /\
  normalize_status ucd_excerpt (lit "wAITING on TEAM")
    = normalize_status ucd_excerpt (lit "Waiting On team").
Proof.
  split; [reflexivity|]. split; [reflexivity|]. split; [reflexivity|].
  apply (@normalize_status_case_insensitive ucd_excerpt
           (lit "wAITING on TEAM") (lit "Waiting On team"));
    reflexivity.
Defined.

(** X3: family priority in general: whenever a keyword of a family
    occurs in the trimmed, lower-cased text and no keyword of the
    families listed before it does, the result is that family's label,
    whatever keywords of later families occur. *)
Theorem normalize_status_first_family_wins
    (U : ucd) (raw_status : pystr)
    (earlier later : list (target * list pystr)) (t : target)
    (keywords : list pystr) :
  STATUS_KEYWORDS = earlier ++ (t, keywords) :: later ->
  forallb (fun it =>
             negb (any_keyword_in (lower U (strip U raw_status)) (snd it)))
          earlier = true ->
  any_keyword_in (lower U (strip U raw_status)) keywords = true ->
  normalize_status U raw_status = canonical_label t.
Proof.
  intros Hsplit Hearlier Hk. apply normalize_matched. rewrite Hsplit.
  apply first_family_app; [|exact Hk].
  intros it Hit. rewrite forallb_forall in Hearlier.
  apply negb_true_iff, Hearlier, Hit.
Qed.

Lemma normalize_status_first_family_wins_witness :
  normalize_status ucd_excerpt (lit "Ranked 2nd, then onsite") = lit "Onsite".
Proof.
  apply (@normalize_status_first_family_wins ucd_excerpt
           (lit "Ranked 2nd, then onsite")
           [ (rejected, rejected_keywords); (offer, offer_keywords) ]
           [ (interview, interview_keywords); (ranked, ranked_keywords);
             (applied, applied_keywords) ]
           onsite onsite_keywords);
    reflexivity.
Defined.

(** X4: the normaliser never returns the empty string, provided no code
    point beyond ASCII has an empty title-case mapping (none has, in the
    Unicode database). *)
Theorem normalize_status_nonempty (U : ucd) (raw_status : pystr) :
  (forall c, u_title U c <> []) ->
  normalize_status U raw_status <> [].
Proof.
  intros Hu. unfold normalize_status.
  destruct (first_family _ _) as [t|].
  - destruct t; discriminate.
  - destruct (strip U raw_status) as [|c r] eqn:E; simpl; [discriminate|].
    apply title_nonempty; [exact Hu | discriminate].
Qed.

Lemma normalize_status_nonempty_witness :
  normalize_status ucd_excerpt (64257 :: lit "lled")%N <> [].
Proof.
  apply (@normalize_status_nonempty ucd_excerpt (64257 :: lit "lled")%N).
  intros c. simpl.
  destruct (N.eqb c 223); [discriminate|].
  destruct (N.eqb c 963); [discriminate|].
  destruct (N.eqb c 962); [discriminate|].
  destruct (N.eqb c 64257); discriminate.
Defined.

(** X5: for an input whose trimmed text is ASCII, the result is one of
    the six canonical labels or a text in which no keyword occurs; in
    particular it is never "Phone Screen", the status of the first
    sample row and the first value [fetch_stats] counts as an
    interview. *)
Theorem normalize_status_label_or_keyword_free (U : ucd) (raw_status : pystr) :
  all_ascii (strip U raw_status) = true ->
  (In (normalize_status U raw_status) canonical_labels \/
   no_keyword_occurs (lower U (normalize_status U raw_status)) = true)
  /\ normalize_status U raw_status <> lit "Phone Screen".
Proof.
  intros Ha.
  assert (H : In (normalize_status U raw_status) canonical_labels \/
              no_keyword_occurs (lower U (normalize_status U raw_status))
                = true).
  { destruct (first_family (lower U (strip U raw_status)) STATUS_KEYWORDS)
      as [t|] eqn:E.
    - left. rewrite (normalize_matched U raw_status E).
      apply canonical_label_in.
    - rewrite (normalize_unmatched U raw_status E).
      destruct (truthy (strip U raw_status)).
      + right. rewrite (@title_is_title_ascii U _ Ha).
        rewrite (@lower_ascii U _ (@title_ascii_all_ascii _ Ha false)).
        rewrite lower_title_ascii, <- (@lower_ascii U _ Ha).
        apply first_family_None, E.
      + left. apply (canonical_label_in applied). }
  split; [exact H|].
  intros Eq. rewrite Eq in H. destruct H as [H | H].
  - simpl in H. repeat (destruct H as [H | H]; [discriminate H|]). exact H.
  - vm_compute in H. discriminate H.
Qed.

Lemma normalize_status_label_or_keyword_free_witness :
  all_ascii (strip ucd_excerpt (lit " phone SCREEN ")) = true /\
  normalize_status ucd_excerpt (lit " phone SCREEN ") <> lit "Phone Screen".
Proof.
  split; [reflexivity|].
  exact (proj2 (@normalize_status_label_or_keyword_free ucd_excerpt
                  (lit " phone SCREEN ") eq_refl)).
Defined.

(* ================================================================== *)
(** * The store and the routes: further properties *)
(* ================================================================== *)

Lemma find_app_first {A : Type} (f : A -> bool) (pre post : list A) (y : A) :
  (forall z, In z pre -> f z = false) -> f y = true ->
  find f (pre ++ y :: post) = Some y.
Proof.
  intros Hpre Hy. induction pre as [|a pre IH]; simpl.
  - rewrite Hy. reflexivity.
  - rewrite (Hpre a) by (left; reflexivity).
    apply IH. intros z Hz. apply Hpre. right. exact Hz.
Qed.

Lemma db_ok_NoDup (conn : db) : db_ok conn -> NoDup (map id (rows conn)).
Proof. apply sorted_NoDup. Qed.

(** In a store with distinct rowids, the row of a given id is found
    wherever it stands. *)
Lemma select_by_id_split (conn : db) (pre post : list row) (y : row) :
  db_ok conn -> rows conn = pre ++ y :: post ->
  select_by_id conn (id y) = Some y.
Proof.
  intros Hok Hr. unfold select_by_id. rewrite Hr.
  apply find_app_first; [|apply Z.eqb_refl].
  intros z Hz. apply Z.eqb_neq. intros E.
  apply db_ok_NoDup in Hok. rewrite Hr, map_app in Hok. simpl in Hok.
  apply NoDup_remove_2 in Hok. apply Hok, in_or_app. left.
  rewrite <- E. apply in_map, Hz.
Qed.

Lemma select_by_id_Some (conn : db) (i : Z) (y : row) :
  select_by_id conn i = Some y ->
  id y = i /\ exists pre post, rows conn = pre ++ y :: post.
Proof.
  unfold select_by_id. intros H.
  destruct (find_Some_split _ _ H) as [pre [post [Hr [Hy _]]]].
  split; [apply Z.eqb_eq, Hy | eauto].
Qed.

Lemma select_by_id_None (conn : db) (i : Z) :
  select_by_id conn i = None <-> ~ In i (map id (rows conn)).
Proof.
  unfold select_by_id. split.
  - intros H Hin. apply in_map_iff in Hin. destruct Hin as [x [E Hx]].
    pose proof (find_none _ _ H x Hx) as Hf. simpl in Hf.
    apply Z.eqb_neq in Hf. contradiction.
  - intros H. destruct (find _ _) as [y|] eqn:E; [|reflexivity].
    apply find_some in E. destruct E as [Hy Hi].
    apply Z.eqb_eq in Hi. exfalso. apply H. rewrite <- Hi.
    apply in_map, Hy.
Qed.

Lemma db_eq (d d' : db) :
  rows d = rows d' -> sqlite_sequence d = sqlite_sequence d' -> d = d'.
Proof. destruct d, d'; simpl; intros; subst; reflexivity. Qed.

(** The shape of the store after an upsert, insert and update alike: the
    candidate stands at the first place of the scan that carries its
    key. *)
Lemma upsert_shape (U : ucd) (conn : db) (dt : data) :
  db_ok conn ->
  exists pre post i,
    rows (upsert_application U conn dt)
      = pre ++ {| id := i; cols := normalized_of U dt |} :: post /\
    (forall z, In z pre -> ~ has_key (company dt) (role dt) z) /\
    ((exists y, rows conn = pre ++ y :: post /\ id y = i /\
                has_key (company dt) (role dt) y /\
                sqlite_sequence (upsert_application U conn dt)
                  = sqlite_sequence conn)
     \/ (rows conn = pre /\ post = [] /\ i = next_rowid conn)).
Proof.
  intros Hok. unfold upsert_application.
  cbn [normalized_of set_status company role].
  destruct (select_id conn (company dt) (role dt)) as [i|] eqn:E.
  - destruct (select_id_Some _ _ _ E)
      as [pre [y [post [Hr [Hi [Hy Hpre]]]]]].
    exists pre, post, i. subst i.
    split; [apply update_row_split; assumption|].
    split; [exact Hpre|]. left. exists y. auto.
  - exists (rows conn), [], (next_rowid conn).
    split; [reflexivity|].
    split; [apply select_id_None, E|]. right. auto.
Qed.

Lemma normalized_has_key (U : ucd) (dt : data) (i : Z) :
  has_key (company dt) (role dt) {| id := i; cols := normalized_of U dt |}.
Proof. split; reflexivity. Qed.

Lemma has_key_false (c r : pystr) (z : row) :
  ~ has_key c r z -> same_key c r z = false.
Proof.
  intros H. destruct (same_key c r z) eqn:E; [|reflexivity].
  apply same_key_spec in E. contradiction.
Qed.

(** After an upsert the lookup by key stops at the candidate's row. *)
Lemma upsert_select_shape (U : ucd) (conn : db) (dt : data) :
  db_ok conn ->
  exists pre post i,
    rows (upsert_application U conn dt)
      = pre ++ {| id := i; cols := normalized_of U dt |} :: post /\
    select_id (upsert_application U conn dt) (company dt) (role dt) = Some i.
Proof.
  intros Hok.
  destruct (upsert_shape U dt Hok) as [pre [post [i [Hr [Hpre _]]]]].
  exists pre, post, i. split; [exact Hr|].
  unfold select_id. rewrite Hr.
  rewrite (@find_app_first _ (same_key (company dt) (role dt)) pre post
             {| id := i; cols := normalized_of U dt |}).
  - reflexivity.
  - intros z Hz. apply has_key_false, Hpre, Hz.
  - apply same_key_spec, normalized_has_key.
Qed.

(** X6: after an upsert, looking the candidate's (company, role) up
    finds a record, and the record under the id found holds exactly the
    normalised candidate, whether the upsert inserted or updated. *)
Theorem upsert_application_then_lookup (U : ucd) (conn : db) (dt : data) :
  db_ok conn ->
  exists i,
    select_id (upsert_application U conn dt) (company dt) (role dt) = Some i /\
    select_by_id (upsert_application U conn dt) i
      = Some {| id := i; cols := normalized_of U dt |}.
Proof.
  intros Hok.
  destruct (upsert_select_shape U dt Hok) as [pre [post [i [Hr Hsel]]]].
  exists i. split; [exact Hsel|].
  apply (@select_by_id_split _ pre post
           {| id := i; cols := normalized_of U dt |});
    [apply upsert_application_ok, Hok | exact Hr].
Qed.

Lemma upsert_application_then_lookup_witness :
  db_ok Sample.store /\
  exists i,
    select_id (upsert_application ucd_excerpt Sample.store Sample.scraped_quark)
      (lit "Quark Labs") (lit "Platform Co-op") = Some i /\
    select_by_id
      (upsert_application ucd_excerpt Sample.store Sample.scraped_quark) i
      = Some {| id := i;
                cols := normalized_of ucd_excerpt Sample.scraped_quark |}.
Proof.
  split; [exact sample_store_ok|].
  exact (@upsert_application_then_lookup ucd_excerpt Sample.store
           Sample.scraped_quark sample_store_ok).
Defined.

(** X7: the upsert is idempotent: reconciling the same candidate a
    second time leaves the store exactly as the first time left it. *)
Theorem upsert_application_idempotent (U : ucd) (conn : db) (dt : data) :
  db_ok conn ->
  upsert_application U (upsert_application U conn dt) dt
    = upsert_application U conn dt.
Proof.
  intros Hok.
  pose proof (upsert_application_ok U dt Hok) as Hok1.
  destruct (upsert_select_shape U dt Hok) as [pre [post [i [Hr Hsel]]]].
  set (conn1 := upsert_application U conn dt) in *.
  unfold upsert_application at 1.
  cbn [normalized_of set_status company role]. rewrite Hsel.
  apply db_eq; [|reflexivity].
  rewrite Hr.
  exact (@update_row_split conn1 pre post
           {| id := i; cols := normalized_of U dt |}
           (normalized_of U dt) Hok1 Hr).
Qed.

Lemma upsert_application_idempotent_witness :
  db_ok Sample.store /\
  upsert_application ucd_excerpt
    (upsert_application ucd_excerpt Sample.store Sample.scraped_acme)
    Sample.scraped_acme
  = upsert_application ucd_excerpt Sample.store Sample.scraped_acme.
Proof.
  split; [exact sample_store_ok|].
  exact (@upsert_application_idempotent ucd_excerpt Sample.store
           Sample.scraped_acme sample_store_ok).
Defined.

Lemma map_key_update (pre post : list row) (y y' : row) :
  key y' = key y ->
  map key (pre ++ y' :: post) = map key (pre ++ y :: post).
Proof. intros E. rewrite !map_app. simpl. rewrite E. reflexivity. Qed.

Lemma has_key_key (c r : pystr) (x : row) : has_key c r x <-> key x = (c, r).
Proof.
  unfold has_key, key. split.
  - intros [-> ->]. reflexivity.
  - intros E. inversion E. auto.
Qed.

(** An upsert keeps the dedup key unique. *)
Lemma upsert_keys_unique (U : ucd) (conn : db) (dt : data) :
  db_ok conn -> keys_unique conn ->
  keys_unique (upsert_application U conn dt).
Proof.
  intros Hok Hu. unfold keys_unique in *.
  destruct (upsert_shape U dt Hok)
    as [pre [post [i [Hr [Hpre [[y [Hc [_ [Hy _]]]] | [Hc [Hp _]]]]]]]].
  - rewrite Hr, (@map_key_update pre post y).
    + rewrite <- Hc. exact Hu.
    + apply has_key_key in Hy. rewrite Hy.
      apply has_key_key, normalized_has_key.
  - rewrite Hr, Hp, map_app. simpl. subst pre.
    apply Permutation_NoDup
      with (l := key {| id := i; cols := normalized_of U dt |}
                   :: map key (rows conn)).
    + apply Permutation_cons_append.
    + constructor; [|exact Hu].
      intros Hin. apply in_map_iff in Hin. destruct Hin as [z [Ez Hz]].
      apply (Hpre z Hz). apply has_key_key. rewrite Ez.
      apply has_key_key, normalized_has_key.
Qed.

Lemma upsert_application_cases (U : ucd) (conn : db) (dt : data) :
  (exists i, upsert_application U conn dt
             = update_row conn i (normalized_of U dt)) \/
  upsert_application U conn dt = insert_row conn (normalized_of U dt).
Proof.
  unfold upsert_application.
  destruct (select_id _ _ _) as [i|]; [left; exists i|right]; reflexivity.
Qed.

Lemma next_rowid_above_sequence (conn : db) :
  (sqlite_sequence conn < next_rowid conn)%Z.
Proof. unfold next_rowid. lia. Qed.

Lemma delete_row_ids (conn : db) (i j : Z) :
  In j (map id (rows (delete_row conn i))) ->
  In j (map id (rows conn)) /\ j <> i.
Proof.
  unfold delete_row; simpl. intros H. apply in_map_iff in H.
  destruct H as [x [E Hx]]. apply filter_In in Hx. destruct Hx as [Hx Hn].
  apply negb_true_iff, Z.eqb_neq in Hn. subst j.
  split; [apply in_map, Hx | exact Hn].
Qed.

(** Every statement leaves the ids below the counter out of reach: the
    counter never decreases, and an id that is absent and not above the
    counter stays absent. *)
Lemma step_keeps_absent (U : ucd) (conn conn' : db) (i : Z) :
  step U conn conn' ->
  (i <= sqlite_sequence conn)%Z /\ ~ In i (map id (rows conn)) ->
  (i <= sqlite_sequence conn')%Z /\ ~ In i (map id (rows conn')).
Proof.
  assert (Hins : forall a,
            (i <= sqlite_sequence conn)%Z /\ ~ In i (map id (rows conn)) ->
            (i <= sqlite_sequence (insert_row conn a))%Z /\
            ~ In i (map id (rows (insert_row conn a)))).
  { intros a [Hle Hn]. pose proof (next_rowid_above_sequence conn) as Hlt.
    unfold insert_row; simpl. split; [lia|].
    rewrite map_app, in_app_iff. simpl. intros [H | [H | []]]; [auto | lia]. }
  assert (Hupd : forall j a,
            (i <= sqlite_sequence conn)%Z /\ ~ In i (map id (rows conn)) ->
            (i <= sqlite_sequence (update_row conn j a))%Z /\
            ~ In i (map id (rows (update_row conn j a)))).
  { intros j a [Hle Hn]. rewrite update_row_ids. auto. }
  intros Hstep. destruct Hstep as [conn a | conn j a | conn j | conn dt].
  - apply Hins.
  - apply Hupd.
  - intros [Hle Hn]. split; [exact Hle|].
    intros H. apply delete_row_ids in H. tauto.
  - destruct (upsert_application_cases U conn dt) as [[j ->] | ->];
      [apply Hupd | apply Hins].
Qed.

Lemma reachable_sequence (U : ucd) (conn : db) :
  reachable U conn ->
  forall x, In x (rows conn) -> (id x <= sqlite_sequence conn)%Z.
Proof.
  assert (Hins : forall d a,
            (forall x, In x (rows d) -> (id x <= sqlite_sequence d)%Z) ->
            forall x, In x (rows (insert_row d a)) ->
                      (id x <= sqlite_sequence (insert_row d a))%Z).
  { intros d a IH x Hx. unfold insert_row in *; simpl in *.
    apply in_app_or in Hx. destruct Hx as [Hx | [<- | []]]; simpl; [|lia].
    specialize (IH x Hx). pose proof (next_rowid_above_sequence d). lia. }
  assert (Hupd : forall d i a,
            (forall x, In x (rows d) -> (id x <= sqlite_sequence d)%Z) ->
            forall x, In x (rows (update_row d i a)) ->
                      (id x <= sqlite_sequence (update_row d i a))%Z).
  { intros d i a IH x Hx. unfold update_row in *; simpl in *.
    apply in_map_iff in Hx. destruct Hx as [z [E Hz]].
    specialize (IH z Hz). destruct (Z.eqb (id z) i); subst x; exact IH. }
  induction 1 as [| conn a _ IH | conn i a _ IH | conn i _ IH | conn dt _ IH].
  - intros x [].
  - apply Hins, IH.
  - apply Hupd, IH.
  - intros x Hx. unfold delete_row in *; simpl in *.
    apply filter_In in Hx. apply IH, Hx.
  - destruct (upsert_application_cases U conn dt) as [[j ->] | ->];
      [apply Hupd, IH | apply Hins, IH].
Qed.

(** X9: record ids are never reused: once the record with some id has
    been deleted, no sequence of later inserts, edits, deletes and
    upserts brings a record with that id back. *)
Theorem rowid_never_reused (U : ucd) (conn conn' : db) (x : row) :
  reachable U conn -> In x (rows conn) ->
  evolves U (delete_application conn (id x)) conn' ->
  ~ In (id x) (map id (rows conn')).
Proof.
  intros Hreach Hx Hev.
  assert (H0 : (id x <= sqlite_sequence (delete_application conn (id x)))%Z /\
               ~ In (id x) (map id (rows (delete_application conn (id x))))).
  { split.
    - apply (reachable_sequence Hreach), Hx.
    - intros H. apply delete_row_ids in H. destruct H as [_ H]. congruence. }
  assert (H : (id x <= sqlite_sequence conn')%Z /\
              ~ In (id x) (map id (rows conn'))).
  { induction Hev as [|d d' d'' _ IH Hstep]; [exact H0|].
    apply (step_keeps_absent Hstep), IH, H0. }
  exact (proj2 H).
Qed.

Lemma sample_store_reachable : reachable ucd_excerpt Sample.store.
Proof.
  change Sample.store
    with (delete_row
            (insert_row
               (insert_row
                  (insert_row (insert_row empty_db Sample.acme_intern)
                     Sample.volt_coop)
                  Sample.volt_coop)
               Sample.acme_again) 3).
  repeat constructor.
Qed.

Lemma rowid_never_reused_witness :
  let x := {| id := 2; cols := Sample.volt_coop |} in
  let conn' :=
    upsert_application ucd_excerpt
      (insert_row (delete_application Sample.store 2) Sample.volt_coop)
      Sample.scraped_quark in
  In x (rows Sample.store) /\
  map id (rows conn') = [1; 4; 5; 6]%Z /\
  ~ In 2%Z (map id (rows conn')).
Proof.
  cbv zeta.
  assert (Hx : In {| id := 2; cols := Sample.volt_coop |} (rows Sample.store))
    by (simpl; tauto).
  split; [exact Hx|]. split; [reflexivity|].
  apply (@rowid_never_reused ucd_excerpt Sample.store _
           {| id := 2; cols := Sample.volt_coop |}
           sample_store_reachable Hx).
  eapply evolves_step; [eapply evolves_step; [apply evolves_refl|]|].
  - apply (step_insert ucd_excerpt _ Sample.volt_coop).
  - apply step_upsert.
Defined.

Lemma filter_length_remove (l : list row) (i : Z) :
  NoDup (map id l) -> In i (map id l) ->
  S (length (filter (fun x => negb (Z.eqb (id x) i)) l)) = length l.
Proof.
  induction l as [|a l IH]; simpl; [tauto|].
  intros Hnd. inversion Hnd as [|? ? Hna Hnd']; subst.
  intros [E | Hin].
  - subst i. rewrite Z.eqb_refl. simpl. f_equal.
    assert (Hall : forall z, In z l -> negb (Z.eqb (id z) (id a)) = true).
    { intros z Hz. apply negb_true_iff, Z.eqb_neq. intros E.
      apply Hna. rewrite <- E. apply in_map, Hz. }
    clear IH Hnd Hnd' Hna. induction l as [|b l IH]; simpl; auto.
    rewrite (Hall b) by (left; reflexivity). simpl. f_equal.
    apply IH. intros z Hz. apply Hall. right. exact Hz.
  - destruct (Z.eqb_spec (id a) i) as [E|E].
    + exfalso. apply Hna. rewrite E. exact Hin.
    + simpl. f_equal. apply IH; assumption.
Qed.

Lemma filter_all_true {A : Type} (f : A -> bool) (l : list A) :
  (forall z, In z l -> f z = true) -> filter f l = l.
Proof.
  induction l as [|a l IH]; simpl; auto. intros H.
  rewrite (H a) by (left; reflexivity). f_equal.
  apply IH. intros z Hz. apply H. right. exact Hz.
Qed.

(** X10: deleting by id removes the record of that id and nothing else:
    the id can no longer be fetched, the other records remain, and the
    count drops by one; deleting an id that no record has leaves the
    store as it is. *)
Theorem delete_application_removes_one (conn : db) (app_id : Z) :
  db_ok conn ->
  select_by_id (delete_application conn app_id) app_id = None /\
  (forall x, In x (rows (delete_application conn app_id)) <->
             In x (rows conn) /\ id x <> app_id) /\
  match select_by_id conn app_id with
  | Some _ =>
      S (count_rows (delete_application conn app_id)) = count_rows conn
  | None => delete_application conn app_id = conn
  end.
Proof.
  intros Hok. unfold delete_application. split; [|split].
  - apply select_by_id_None. intros H. apply delete_row_ids in H. tauto.
  - intros x. unfold delete_row; simpl. rewrite filter_In, negb_true_iff.
    rewrite Z.eqb_neq. tauto.
  - destruct (select_by_id conn app_id) as [y|] eqn:E.
    + destruct (select_by_id_Some _ _ E) as [Hy [pre [post Hr]]].
      unfold count_rows, delete_row; simpl.
      apply filter_length_remove; [apply db_ok_NoDup, Hok|].
      rewrite Hr, <- Hy. apply in_map, in_or_app. right. left. reflexivity.
    + apply select_by_id_None in E. apply db_eq; [|reflexivity].
      unfold delete_row; simpl. apply filter_all_true.
      intros z Hz. apply negb_true_iff, Z.eqb_neq. intros Ez.
      apply E. rewrite <- Ez. apply in_map, Hz.
Qed.

Lemma delete_application_removes_one_witness :
  db_ok Sample.store /\
  rows (delete_application Sample.store 2)
    = [ {| id := 1; cols := Sample.acme_intern |};
        {| id := 4; cols := Sample.acme_again |} ] /\
  S (count_rows (delete_application Sample.store 2)) = count_rows Sample.store
  /\ delete_application Sample.store 3 = Sample.store.
Proof.
  split; [exact sample_store_ok|]. split; [reflexivity|].
  split.
  - exact (proj2 (proj2 (@delete_application_removes_one Sample.store 2
                           sample_store_ok))).
  - exact (proj2 (proj2 (@delete_application_removes_one Sample.store 3
                           sample_store_ok))).
Defined.

(** X11: the edit route answers "not found" and leaves the store alone
    when no record has the id; a GET never changes the store; a POST on
    an existing id replaces that record's nine values by the form's and
    leaves every other record, every id and the counter as they were. *)
Theorem edit_application_effect
    (U : ucd) (today : pystr) (conn : db) (app_id : Z) (f : form) :
  db_ok conn ->
  fst (edit_application U today GET conn app_id f) = conn /\
  match select_by_id conn app_id with
  | None =>
      edit_application U today POST conn app_id f = (conn, edit_not_found)
  | Some existing =>
      exists pre post,
        rows conn = pre ++ existing :: post /\
        edit_application U today POST conn app_id f
          = ({| rows := pre ++ {| id := app_id;
                                  cols := form_to_application U today f |}
                          :: post;
                sqlite_sequence := sqlite_sequence conn |},
             edit_updated)
  end.
Proof.
  intros Hok. unfold edit_application. split.
  - destruct (select_by_id conn app_id); reflexivity.
  - destruct (select_by_id conn app_id) as [y|] eqn:E; [|reflexivity].
    destruct (select_by_id_Some _ _ E) as [Hy [pre [post Hr]]].
    exists pre, post. split; [exact Hr|]. f_equal.
    apply db_eq; [|reflexivity]. simpl. subst app_id.
    apply update_row_split; assumption.
Qed.

Lemma edit_application_effect_witness :
  db_ok Sample.store /\
  edit_application ucd_excerpt (lit "2024-03-02") POST Sample.store 3
    SampleMore.edit_form_acme = (Sample.store, edit_not_found) /\
  fst (edit_application ucd_excerpt (lit "2024-03-02") GET Sample.store 2
         SampleMore.edit_form_acme) = Sample.store.
Proof.
  split; [exact sample_store_ok|]. split.
  - exact (proj2 (@edit_application_effect ucd_excerpt (lit "2024-03-02")
                    Sample.store 3 SampleMore.edit_form_acme
                    sample_store_ok)).
  - exact (proj1 (@edit_application_effect ucd_excerpt (lit "2024-03-02")
                    Sample.store 2 SampleMore.edit_form_acme
                    sample_store_ok)).
Defined.

Lemma NoDup_map_two {A B : Type} (g : A -> B) (pre post : list A) (y x : A) :
  In x (pre ++ post) -> g x = g y -> ~ NoDup (map g (pre ++ y :: post)).
Proof.
  intros Hx E Hnd. rewrite map_app in Hnd. simpl in Hnd.
  apply NoDup_remove_2 in Hnd. apply Hnd. rewrite <- map_app, <- E.
  apply in_map, Hx.
Qed.

(** X12: the edit route does not look the dedup key up: editing one
    record into the (company, role) of another leaves two records with
    the same key. *)
Theorem edit_application_duplicates
    (U : ucd) (today : pystr) (conn : db) (f : form) (x y : row) :
  db_ok conn -> In x (rows conn) -> In y (rows conn) -> id x <> id y ->
  has_key (strip U (form_get f "company" []))
          (strip U (form_get f "role" [])) x ->
  ~ keys_unique (fst (edit_application U today POST conn (id y) f)).
Proof.
  intros Hok Hx Hy Hne Hk.
  destruct (in_split _ _ Hy) as [pre [post Hr]].
  unfold edit_application.
  rewrite (@select_by_id_split conn pre post y Hok Hr). simpl.
  unfold keys_unique.
  rewrite (@update_row_split conn pre post y _ Hok Hr).
  apply NoDup_map_two with (x := x).
  - rewrite Hr in Hx. apply in_app_or in Hx. apply in_or_app.
    destruct Hx as [Hx | [Hx | Hx]]; [left; exact Hx | | right; exact Hx].
    subst x. congruence.
  - apply has_key_key in Hk. rewrite Hk. reflexivity.
Qed.

Lemma edit_application_duplicates_witness :
  let conn := delete_row Sample.store 4 in
  keys_unique conn /\
  ~ keys_unique
      (fst (edit_application ucd_excerpt (lit "2024-03-02") POST conn 2
              SampleMore.edit_form_acme)).
Proof.
  cbv zeta. split.
  - unfold keys_unique. simpl.
    constructor; [|constructor; [|constructor]]; simpl.
    + intros [H | []]. discriminate H.
    + tauto.
  - apply (@edit_application_duplicates ucd_excerpt (lit "2024-03-02")
             (delete_row Sample.store 4) SampleMore.edit_form_acme
             {| id := 1; cols := Sample.acme_intern |}
             {| id := 2; cols := Sample.volt_coop |}).
    + apply delete_row_ok, sample_store_ok.
    + simpl; tauto.
    + simpl; tauto.
    + discriminate.
    + split; reflexivity.
Defined.

Lemma select_by_id_insert (conn : db) (a : application) :
  select_by_id (insert_row conn a) (next_rowid conn)
    = Some {| id := next_rowid conn; cols := a |}.
Proof.
  unfold select_by_id, insert_row; simpl.
  apply find_app_first; [|apply Z.eqb_refl].
  intros z Hz. apply Z.eqb_neq. apply next_rowid_fresh in Hz. lia.
Qed.

(** X13: a manual add can be read back: the new record holds exactly
    what [form_to_application] made of the form, it is fetched under
    its id, and that id is above every id in the table and above the
    counter, so above every id handed out before. *)
Theorem add_application_then_fetch
    (U : ucd) (today : pystr) (conn : db) (f : form) :
  exists r,
    rows (add_application U today POST conn f) = rows conn ++ [r] /\
    cols r = form_to_application U today f /\
    select_by_id (add_application U today POST conn f) (id r) = Some r /\
    (sqlite_sequence conn < id r)%Z /\
    (forall x, In x (rows conn) -> (id x < id r)%Z).
Proof.
  exists {| id := next_rowid conn; cols := form_to_application U today f |}.
  split; [reflexivity|]. split; [reflexivity|].
  split; [apply select_by_id_insert|].
  split; [apply next_rowid_above_sequence|].
  intros x Hx. apply next_rowid_fresh, Hx.
Qed.

Lemma strip_blank (U : ucd) (s : pystr) : blank U s = true -> strip U s = [].
Proof. apply strip_nil_iff. Qed.

(** X14: the add route validates nothing: a form whose company and role
    are missing or blank is stored all the same, as a record with empty
    company and empty role. *)
Theorem add_application_no_validation
    (U : ucd) (today : pystr) (conn : db) (f : form) :
  blank U (form_get f "company" []) = true ->
  blank U (form_get f "role" []) = true ->
  exists r,
    rows (add_application U today POST conn f) = rows conn ++ [r] /\
    company (cols r) = [] /\ role (cols r) = [] /\
    count_rows (add_application U today POST conn f) = S (count_rows conn).
Proof.
  intros Hc Hr. eexists. split; [reflexivity|]. simpl.
  rewrite (strip_blank U _ Hc), (strip_blank U _ Hr).
  split; [reflexivity|]. split; [reflexivity|].
  unfold count_rows; simpl. rewrite length_app. simpl. lia.
Qed.

Lemma add_application_no_validation_witness :
  exists r,
    rows (add_application ucd_excerpt (lit "2024-03-02") POST Sample.store
            [("role"%string, lit "   ")])
      = rows Sample.store ++ [r] /\
    company (cols r) = [] /\ role (cols r) = [] /\
    count_rows (add_application ucd_excerpt (lit "2024-03-02") POST
                  Sample.store [("role"%string, lit "   ")]) = 4%nat.
Proof.
  apply (@add_application_no_validation ucd_excerpt (lit "2024-03-02")
           Sample.store [("role"%string, lit "   ")]);
    reflexivity.
Defined.




(* ================================================================== *)
(** * The dashboard counts: properties *)
(* ================================================================== *)

Lemma filter_length_mono {A : Type} (p q : A -> bool) (l : list A) :
  (forall x, p x = true -> q x = true) ->
  (length (filter p l) <= length (filter q l))%nat.
Proof.
  intros H. induction l as [|a l IH]; simpl; auto.
  destruct (p a) eqn:Ep.
  - rewrite (H a Ep). simpl. lia.
  - destruct (q a); simpl; lia.
Qed.

(** X16: the dashboard numbers are nested: every offer counts as an
    interview, every interview as a response, and no count exceeds the
    total. *)
Theorem fetch_stats_nested (conn : db) :
  (FetchStats.offers conn <= FetchStats.interviews conn)%nat /\
  (FetchStats.interviews conn <= FetchStats.responded conn)%nat /\
  (FetchStats.responded conn <= FetchStats.total conn)%nat.
Proof.
  unfold FetchStats.offers, FetchStats.interviews, FetchStats.responded,
    FetchStats.total, count_rows.
  split; [|split].
  - apply filter_length_mono. intros x E. apply eqb_eq in E.
    rewrite E. reflexivity.
  - apply filter_length_mono. intros x E.
    apply existsb_exists in E. destruct E as [s [Hs E]].
    apply eqb_eq in E. rewrite E. simpl in Hs.
    repeat (destruct Hs as [<- | Hs]; [reflexivity|]). destruct Hs.
  - apply filter_length_le.
Qed.

(* ================================================================== *)
(** * Seeding and [ensure_database]: properties *)
(* ================================================================== *)

(** The date [n] days back, held at the first of the month. *)
Lemma days_back_valid (today : date) (n : Z) :
  valid today = true -> (0 <= n)%Z ->
  days_back today n
    = Some (isoformat {| year := year today; month := month today;
                         day := Z.max 1 (day today - n) |}).
Proof.
  intros Hv Hn. unfold days_back, replace_day.
  assert (Hv' : valid {| year := year today; month := month today;
                         day := Z.max 1 (day today - n) |} = true).
  { unfold valid in *. simpl.
    rewrite !andb_true_iff in *. rewrite !Z.leb_le in *. lia. }
  rewrite Hv'. reflexivity.
Qed.

Lemma seed_sample_data_unfold (conn : db) (today : date) :
  valid today = true ->
  let back := fun n =>
    isoformat {| year := year today; month := month today;
                 day := Z.max 1 (day today - n) |} in
  seed_sample_data conn today
    = Some (fold_left insert_row
              (sample_rows (back 18%Z) (back 9%Z) (back 30%Z) (back 15%Z)
                 (back 45%Z) (back 10%Z) (back 60%Z) (back 25%Z)) conn).
Proof.
  intros Hv. cbv zeta. unfold seed_sample_data.
  rewrite !(days_back_valid _ Hv) by lia. reflexivity.
Qed.

Lemma fold_insert_rows (l : list application) (conn : db) :
  exists new,
    rows (fold_left insert_row l conn) = rows conn ++ new /\
    map cols new = l /\
    (forall r, In r new -> (sqlite_sequence conn < id r)%Z) /\
    (db_ok conn -> db_ok (fold_left insert_row l conn)).
Proof.
  revert conn. induction l as [|a l IH]; intros conn; simpl.
  - exists []. rewrite app_nil_r. repeat split; auto. intros r [].
  - destruct (IH (insert_row conn a)) as [new [Hr [Hc [Hid Hok]]]].
    exists ({| id := next_rowid conn; cols := a |} :: new).
    split; [|split; [|split]].
    + rewrite Hr. unfold insert_row; simpl. rewrite <- app_assoc.
      reflexivity.
    + simpl. rewrite Hc. reflexivity.
    + pose proof (next_rowid_above_sequence conn) as Hlt.
      intros r [<- | Hin]; simpl; [exact Hlt|].
      specialize (Hid r Hin). unfold insert_row in Hid; simpl in Hid. lia.
    + intros H. apply Hok, insert_row_ok, H.
Qed.

(** X17: seeding cannot fail on a date: for every valid [today] the
    eight computed dates exist (the day is held at 1 when the month is
    too young), so five rows are appended, with fresh ids, carrying the
    sample tuples dated in the current month and no later than today. *)
Theorem seed_sample_data_succeeds (conn : db) (today : date) :
  valid today = true ->
  let back := fun n =>
    isoformat {| year := year today; month := month today;
                 day := Z.max 1 (day today - n) |} in
  exists conn' new,
    seed_sample_data conn today = Some conn' /\
    rows conn' = rows conn ++ new /\
    map cols new
      = sample_rows (back 18%Z) (back 9%Z) (back 30%Z) (back 15%Z)
          (back 45%Z) (back 10%Z) (back 60%Z) (back 25%Z) /\
    count_rows conn' = (count_rows conn + 5)%nat /\
    (forall r, In r new -> (sqlite_sequence conn < id r)%Z) /\
    (forall n, (0 <= n)%Z ->
               (1 <= Z.max 1 (day today - n) <= day today)%Z).
Proof.
  intros Hv. cbv zeta.
  rewrite (@seed_sample_data_unfold conn today Hv). cbv zeta.
  match goal with
  | |- context [fold_left insert_row ?l conn] =>
      destruct (fold_insert_rows l conn) as [new [Hr [Hc [Hid _]]]]
  end.
  eexists. exists new. split; [reflexivity|].
  split; [exact Hr|]. split; [exact Hc|]. split; [|split; [exact Hid|]].
  - unfold count_rows. rewrite Hr, length_app.
    rewrite <- (length_map cols new), Hc. reflexivity.
  - intros n Hn. unfold valid in Hv.
    rewrite !andb_true_iff in Hv. rewrite !Z.leb_le in Hv. lia.
Qed.

Lemma seed_sample_data_succeeds_witness :
  valid SampleMore.march_5 = true /\
  exists conn',
    seed_sample_data empty_db SampleMore.march_5 = Some conn' /\
    map (fun r => applied_date (cols r)) (rows conn')
      = [ lit "2024-03-01"; lit "2024-03-01"; lit "2024-03-01";
          lit "2024-03-01"; lit "2024-03-01" ] /\
    map id (rows conn') = [1; 2; 3; 4; 5]%Z.
Proof.
  split; [reflexivity|].
  destruct (@seed_sample_data_succeeds empty_db SampleMore.march_5 eq_refl)
    as [conn' [new [Hs _]]].
  exists conn'. split; [exact Hs|].
  vm_compute in Hs. inversion Hs; subst conn'. split; reflexivity.
Defined.

(** X18: [ensure_database] seeds exactly the stores without rows: a
    store with at least one record is returned as it is; a store with
    none gets the five samples, also one that held records before and
    was emptied; and running it again, on any later day, changes
    nothing. *)
Theorem ensure_database_effect (conn : db) (today : date) :
  valid today = true ->
  exists conn',
    ensure_database conn today = Some conn' /\
    (rows conn <> [] -> conn' = conn) /\
    (rows conn = [] -> count_rows conn' = 5%nat) /\
    (forall today', ensure_database conn' today' = Some conn').
Proof.
  intros Hv. unfold ensure_database at 1.
  destruct (rows conn) as [|x l] eqn:E.
  - unfold count_rows. rewrite E. simpl.
    rewrite (@seed_sample_data_unfold conn today Hv). cbv zeta.
    match goal with
    | |- context [fold_left insert_row ?l conn] =>
        destruct (fold_insert_rows l conn) as [new [Hr [Hc _]]];
        set (conn' := fold_left insert_row l conn) in *
    end.
    assert (Hn : count_rows conn' = 5%nat).
    { unfold count_rows. rewrite Hr, E. simpl.
      rewrite <- (length_map cols new), Hc. reflexivity. }
    exists conn'. split; [reflexivity|].
    split; [congruence|]. split; [intros _; exact Hn|].
    intros today'. unfold ensure_database. rewrite Hn. reflexivity.
  - exists conn. unfold count_rows. rewrite E. simpl.
    split; [reflexivity|]. split; [reflexivity|].
    split; [discriminate|].
    intros today'. unfold ensure_database, count_rows. rewrite E.
    reflexivity.
Qed.

Lemma ensure_database_effect_witness :
  valid SampleMore.march_5 = true /\
  exists conn',
    ensure_database SampleMore.emptied SampleMore.march_5 = Some conn' /\
    map id (rows conn') = [8; 9; 10; 11; 12]%Z /\
    ensure_database conn' SampleMore.march_5 = Some conn'.
Proof.
  split; [reflexivity|].
  destruct (@ensure_database_effect SampleMore.emptied SampleMore.march_5
              eq_refl) as [conn' [He [_ [_ Hagain]]]].
  exists conn'. split; [exact He|]. split; [|apply Hagain].
  vm_compute in He. inversion He; subst conn'. reflexivity.
Defined.

(* ================================================================== *)
(** * The command line of the crawler: properties *)
(* ================================================================== *)

(** X19: with [--preset waterlooworks] and the five options for the row,
    company, role and status selectors and the source label not given,
    the crawl runs with the generic defaults of those options, not with
    the preset's values: a default is a non-empty string, and the
    preset fills in only what is empty.  So the company is read from
    column 1, not from the preset's column 2. *)
Theorem preset_keeps_option_defaults
    (login target user pass loc nav : option pystr) (wait : Z)
    (hf : bool) :
  let d := Cli.defaults user pass in
  let k :=
    Cli.crawl_kwargs
      {| Cli.preset := Some Cli.waterlooworks;
         Cli.login_url := login; Cli.target_url := target;
         Cli.username := user; Cli.password := pass;
         Cli.row_selector := Cli.row_selector d;
         Cli.company_selector := Cli.company_selector d;
         Cli.role_selector := Cli.role_selector d;
         Cli.status_selector := Cli.status_selector d;
         Cli.location_selector := loc; Cli.nav_link_text := nav;
         Cli.login_wait_ms := wait; Cli.headful := hf;
         Cli.source_label := Cli.source_label d |} in
  Cli.row_selector k = lit "table tr" /\
  Cli.company_selector k = lit "td:nth-child(1)" /\
  Cli.role_selector k = lit "td:nth-child(2)" /\
  Cli.status_selector k = lit "td:nth-child(3)" /\
  Cli.source_label k = lit "Crawler" /\
  Cli.company_selector k <> lit "td:nth-child(2)" /\
  (exists l t, Cli.login_url k = Some l /\ Cli.target_url k = Some t /\
               truthy l = true /\ truthy t = true).
Proof.
  cbv zeta. repeat (split; [reflexivity|]). split; [discriminate|].
  unfold Cli.crawl_kwargs, Cli.apply_preset.
  cbn [Cli.preset Cli.login_url Cli.target_url].
  assert (H : forall o, truthy (Cli.or_opt o Cli.dashboard_url) = true).
  { intros [[|c s]|]; reflexivity. }
  exists (Cli.or_opt login Cli.dashboard_url),
         (Cli.or_opt target Cli.dashboard_url).
  unfold Cli.or_opt_opt. rewrite !H. auto.
Qed.

(* ================================================================== *)
(** * The reconciler and the row loop: further properties *)
(* ================================================================== *)

Lemma upsert_count_bounds (U : ucd) (conn : db) (dt : data) :
  (count_rows conn <= count_rows (upsert_application U conn dt)
   <= S (count_rows conn))%nat.
Proof.
  unfold count_rows.
  destruct (upsert_application_cases U conn dt) as [[i ->] | ->].
  - rewrite <- (length_map id (rows (update_row _ _ _))), update_row_ids.
    rewrite length_map. lia.
  - unfold insert_row; simpl. rewrite length_app. simpl. lia.
Qed.

Lemma fold_upsert_invariants (U : ucd) (l : list data) (conn : db) :
  db_ok conn ->
  db_ok (fold_left (upsert_application U) l conn) /\
  (keys_unique conn ->
   keys_unique (fold_left (upsert_application U) l conn)) /\
  (count_rows conn <= count_rows (fold_left (upsert_application U) l conn)
   <= count_rows conn + length l)%nat.
Proof.
  revert conn. induction l as [|dt l IH]; intros conn Hok; simpl.
  - split; [exact Hok|]. split; [auto | lia].
  - pose proof (upsert_application_ok U dt Hok) as Hok1.
    destruct (IH _ Hok1) as [H1 [H2 H3]].
    pose proof (upsert_count_bounds U conn dt) as Hb.
    split; [exact H1|]. split; [|lia].
    intros Hu. apply H2, upsert_keys_unique; assumption.
Qed.



(** An upsert leaves the records of other keys where they are. *)
Lemma upsert_keeps_other_key (U : ucd) (conn : db) (dt : data) (r : row) :
  db_ok conn -> In r (rows conn) ->
  ~ has_key (company dt) (role dt) r ->
  In r (rows (upsert_application U conn dt)).
Proof.
  intros Hok Hin Hk.
  destruct (upsert_shape U dt Hok)
    as [pre [post [i [Hr [_ [[y [Hc [_ [Hy _]]]] | [Hc [Hp _]]]]]]]].
  - rewrite Hr. rewrite Hc in Hin. apply in_app_or in Hin.
    apply in_or_app. destruct Hin as [H | [H | H]].
    + left. exact H.
    + subst y. contradiction.
    + right. right. exact H.
  - rewrite Hr. apply in_or_app. left. rewrite <- Hc. exact Hin.
Qed.

Lemma fold_upsert_keeps (U : ucd) (l : list data) (conn : db) (r : row) :
  db_ok conn -> In r (rows conn) ->
  (forall dt, In dt l -> ~ has_key (company dt) (role dt) r) ->
  In r (rows (fold_left (upsert_application U) l conn)).
Proof.
  revert conn. induction l as [|dt l IH]; intros conn Hok Hin Hl; simpl; auto.
  apply IH.
  - apply upsert_application_ok, Hok.
  - apply upsert_keeps_other_key; auto. apply Hl. left. reflexivity.
  - intros dt' Hdt'. apply Hl. right. exact Hdt'.
Qed.

(** X20: within one crawl the last row of a key wins: when a row passes
    the presence check and no later passing row has its (company, role),
    the store ends with a record that holds that row's values. *)
Theorem crawl_and_sync_last_row_wins
    (U : ucd) (args : crawl_args) (today : pystr) (conn : db)
    (before after : list element) (el : element) :
  db_ok conn ->
  missing_required U args el = false ->
  (forall el', In el' after -> missing_required U args el' = false ->
     (company (scraped U args today el'), role (scraped U args today el'))
     <> (company (scraped U args today el), role (scraped U args today el)))
  ->
  exists r,
    In r (rows (fst (crawl_and_sync U args today conn
                       (before ++ el :: after)))) /\
    cols r = normalized_of U (scraped U args today el).
Proof.
  intros Hok Hel Hafter.
  unfold crawl_and_sync. rewrite crawl_fold. cbv zeta. simpl fst.
  rewrite filter_app. simpl filter. rewrite Hel. simpl negb. cbv iota.
  rewrite map_app, fold_left_app. simpl map. simpl fold_left.
  set (conn1 := fold_left (upsert_application U)
                  (map (scraped U args today)
                     (filter (fun x => negb (missing_required U args x))
                        before)) conn).
  assert (Hok1 : db_ok conn1)
    by (apply (fold_upsert_invariants U _ Hok)).
  destruct (upsert_shape U (scraped U args today el) Hok1)
    as [pre [post [i [Hr _]]]].
  exists {| id := i; cols := normalized_of U (scraped U args today el) |}.
  split; [|reflexivity].
  apply fold_upsert_keeps.
  - apply upsert_application_ok, Hok1.
  - rewrite Hr. apply in_or_app. right. left. reflexivity.
  - intros dt Hdt [Hc Hro]. apply in_map_iff in Hdt.
    destruct Hdt as [el' [<- Hel']]. apply filter_In in Hel'.
    destruct Hel' as [Hin Hp]. apply negb_true_iff in Hp.
    apply (Hafter el' Hin Hp).
    change (company (scraped U args today el)
            = company (scraped U args today el')) in Hc.
    change (role (scraped U args today el)
            = role (scraped U args today el')) in Hro.
    rewrite Hc, Hro. reflexivity.
Qed.

Lemma crawl_and_sync_last_row_wins_witness :
  db_ok Sample.store /\
  exists r,
    In r (rows (fst (crawl_and_sync ucd_excerpt Sample.args
                       (lit "2024-03-01") Sample.store
                       SampleMore.repeated_page))) /\
    status (cols r) = lit "Offer" /\
    company (cols r) = lit "Acme".
Proof.
  split; [exact sample_store_ok|].
  destruct (@crawl_and_sync_last_row_wins ucd_excerpt Sample.args
              (lit "2024-03-01") Sample.store
              [ Sample.cells (lit "Acme") (lit "Intern") (lit "applied");
                Sample.header_row ]
              []
              (Sample.cells (lit "Acme") (lit "Intern")
                 (lit "Offer extended"))
              sample_store_ok eq_refl)
    as [r [Hin Hc]].
  - intros el' [].
  - exists r. split; [exact Hin|]. rewrite Hc. split; reflexivity.
Defined.

Lemma extract_text_blank_cell (U : ucd) (el : element) (selector : pystr) :
  match el selector with Some text => blank U text | None => true end = true ->
  extract_text U el selector = [].
Proof.
  unfold extract_text. destruct (truthy selector); simpl; [|reflexivity].
  destruct (el selector) as [text|]; [apply strip_nil_iff | reflexivity].
Qed.

(** X21: a table row whose company, role or status cell is absent or
    holds white space only is skipped: the cell text is trimmed before
    the presence check, so the store and the counter stay as they
    were. *)
Theorem crawl_row_skips_blank_cells
    (U : ucd) (args : crawl_args) (today : pystr) (st : db * Z)
    (el : element) :
  (let cell_blank := fun selector =>
     match el selector with Some text => blank U text | None => true end in
   cell_blank (company_selector args) || cell_blank (role_selector args)
   || cell_blank (status_selector args)) = true ->
  crawl_row U args today st el = st.
Proof.
  cbv zeta. intros H. rewrite crawl_row_cases.
  replace (missing_required U args el) with true; [reflexivity|].
  symmetry. unfold missing_required.
  apply orb_true_iff in H. destruct H as [H | H];
    [apply orb_true_iff in H; destruct H as [H | H]|];
    rewrite (extract_text_blank_cell U el _ H); simpl;
    rewrite ?orb_true_r; reflexivity.
Qed.

Lemma crawl_row_skips_blank_cells_witness :
  crawl_row ucd_excerpt Sample.args (lit "2024-03-01") (Sample.store, 3%Z)
    (Sample.cells (lit "Volt Robotics") (lit "Firmware Co-op")
       [32; 160; 9]%N)
  = (Sample.store, 3%Z).
Proof.
  apply (@crawl_row_skips_blank_cells ucd_excerpt Sample.args
           (lit "2024-03-01") (Sample.store, 3%Z)
           (Sample.cells (lit "Volt Robotics") (lit "Firmware Co-op")
              [32; 160; 9]%N)).
  reflexivity.
Defined.
